(** * Mandos value interpreter (gn-vm-util)

    A shallow embedding of
    [test-util/mandos/json/valueinterpreter/interpreter.go].

    Go strings are byte sequences, modelled by [string] (one [ascii] per
    byte); [[]byte] is [list byte]; [int] and [*big.Int] are [Z]; a Go
    function returning [([]byte, error)] returns a pair whose second
    component is [None] for a nil error.  A run-time panic (index out of
    range) is an outcome of its own. *)

From Stdlib Require Import ZArith List Bool Lia.
From Stdlib Require Import Strings.Ascii Strings.String Strings.Byte.
From Stdlib Require Import Numbers.DecimalString.
Import ListNotations.

Open Scope string_scope.
Open Scope list_scope.
Open Scope Z_scope.

Definition bytes := list byte.

(** ** Error values

    One constructor per way the interpreter and the library functions it
    calls build an error. *)

Inductive error : Type :=
| errors_New (text : string)
| fmt_Errorf (text : string)
| fmt_Errorf_w (text : string) (err : error)
| hex_InvalidByteError (b : ascii)
| hex_ErrLength
| twos_ErrDoesNotFit.

(** Outcome of a call: the returned values, or a run-time panic. *)

Inductive exec (A : Type) : Type :=
| Returns (a : A)
| Panics (msg : string).

Arguments Returns {A} a.
Arguments Panics {A} msg.

Definition rets : Type := (bytes * option error)%type.

(** ** Bytes and integers *)

Definition Z_of_byte (b : byte) : Z := Z.of_N (Byte.to_N b).

Definition byte_of_Z (z : Z) : byte :=
  match Byte.of_N (Z.to_N (z mod 256)) with
  | Some b => b
  | None => x00
  end.

(** [^b] on a byte. *)
Definition byte_not (b : byte) : byte := byte_of_Z (255 - Z_of_byte b).

(** [b>>7 != 0] *)
Definition msb_set (b : byte) : bool := 128 <=? Z_of_byte b.

(** ** package strings *)

Module strings.

(** [strings.HasPrefix(s, prefix)] *)
Definition HasPrefix (s prefix : string) : bool := String.prefix prefix s.

(** [s[n:]] for [n <= len(s)] (every use in the interpreter follows a
    successful prefix test or a read of [s[0]]). *)
Fixpoint slice_from (s : string) (n : nat) {struct n} : string :=
  match n, s with
  | O, _ => s
  | S n', String _ s' => slice_from s' n'
  | S _, EmptyString => EmptyString
  end.

(** [strings.Split(s, sep)] for a one-byte separator: the substrings
    between the occurrences of [sep]; one more part than there are
    separators, so never an empty list. *)
Fixpoint Split (s : string) (sep : ascii) : list string :=
  match s with
  | EmptyString => [EmptyString]
  | String c s' =>
      if Ascii.eqb c sep then EmptyString :: Split s' sep
      else match Split s' sep with
           | p :: ps => String c p :: ps
           | [] => [String c EmptyString]
           end
  end.

(** [strings.ReplaceAll(s, old, "")] for a one-byte [old]. *)
Fixpoint ReplaceAll_del (s : string) (old : ascii) : string :=
  match s with
  | EmptyString => EmptyString
  | String c s' =>
      if Ascii.eqb c old then ReplaceAll_del s' old
      else String c (ReplaceAll_del s' old)
  end.

(** [strings.IndexByte(s, c) >= 0]: the byte occurs in the string (used
    in statements only). *)
Fixpoint contains (s : string) (c : ascii) : bool :=
  match s with
  | EmptyString => false
  | String c' s' => Ascii.eqb c' c || contains s' c
  end.

End strings.

(** ** package encoding/hex *)

Module hex.

Definition in_range (lo hi ch : ascii) : bool :=
  (N_of_ascii lo <=? N_of_ascii ch)%N && (N_of_ascii ch <=? N_of_ascii hi)%N.

(** [reverseHexTable]: the value of a hexadecimal digit. *)
Definition fromHexChar (ch : ascii) : option Z :=
  if in_range "0" "9" ch then Some (Z.of_N (N_of_ascii ch) - 48)
  else if in_range "a" "f" ch then Some (Z.of_N (N_of_ascii ch) - 97 + 10)
  else if in_range "A" "F" ch then Some (Z.of_N (N_of_ascii ch) - 65 + 10)
  else None.

(** [hex.DecodeString]: decodes pairs of digits; on malformed input it
    returns the bytes decoded before the error together with the error.
    A lone last character is reported as an invalid byte when it is one,
    otherwise as [ErrLength]. *)
Fixpoint DecodeString (s : string) : rets :=
  match s with
  | EmptyString => ([], None)
  | String p EmptyString =>
      match fromHexChar p with
      | None => ([], Some (hex_InvalidByteError p))
      | Some _ => ([], Some hex_ErrLength)
      end
  | String p (String q rest) =>
      match fromHexChar p with
      | None => ([], Some (hex_InvalidByteError p))
      | Some a =>
          match fromHexChar q with
          | None => ([], Some (hex_InvalidByteError q))
          | Some b =>
              let '(decoded, err) := DecodeString rest in
              (byte_of_Z (a * 16 + b) :: decoded, err)
          end
      end
  end.

End hex.

(** ** package math/big *)

Module big.

Definition MaxBase : Z := 62.
Definition maxBaseSmall : Z := 36.

(** The digit value [d1] computed in [nat.scan]. *)
Definition digitVal (b : Z) (ch : ascii) : Z :=
  if hex.in_range "0" "9" ch then Z.of_N (N_of_ascii ch) - 48
  else if hex.in_range "a" "z" ch then Z.of_N (N_of_ascii ch) - 97 + 10
  else if hex.in_range "A" "Z" ch then
         if b <=? maxBaseSmall then Z.of_N (N_of_ascii ch) - 65 + 10
         else Z.of_N (N_of_ascii ch) - 65 + maxBaseSmall
  else MaxBase + 1.

(** The mantissa loop of [nat.scan], run to the end of the input: every
    character has to be a digit of the base. *)
Fixpoint scanDigits (b : Z) (s : string) (acc : Z) : option Z :=
  match s with
  | EmptyString => Some acc
  | String ch s' =>
      let d1 := digitVal b ch in
      if d1 >=? b then None else scanDigits b s' (acc * b + d1)
  end.

(** [Int.SetString(s, base)] for an explicit base (2 <= base <= 62):
    an optional sign, then one digit or more, then the end of the
    string.  [None] is [ok == false]. *)
Definition SetString (s : string) (base : Z) : option Z :=
  match s with
  | EmptyString => None
  | String ch s' =>
      let neg := Ascii.eqb ch "-" in
      let mant := if Ascii.eqb ch "-" || Ascii.eqb ch "+" then s' else s in
      match mant with
      | EmptyString => None
      | _ =>
          match scanDigits base mant 0 with
          | Some m => Some (if neg then - m else m)
          | None => None
          end
      end
  end.

(** Big-endian representation of [n mod 256^w] on [w] bytes. *)
Fixpoint be_bytes (w : nat) (n : Z) : bytes :=
  match w with
  | O => []
  | S w' => be_bytes w' (n / 256) ++ [byte_of_Z n]
  end.

(** Number of bytes of the shortest representation of [n >= 0]. *)
Definition byteLen (n : Z) : nat :=
  if n <=? 0 then O else Z.to_nat ((Z.log2 n + 8) / 8).

(** [Int.Bytes()]: the absolute value, big-endian, without leading
    zero byte (empty for zero). *)
Definition Bytes (x : Z) : bytes := be_bytes (byteLen (Z.abs x)) (Z.abs x).

(** [Int.SetBytes(buf)]: [buf] read as a big-endian unsigned
    integer. *)
Definition SetBytes (buf : bytes) : Z :=
  fold_left (fun acc b => acc * 256 + Z_of_byte b) buf 0.

End big.

(** ** package twos-complement (module gn-bigint) *)

Module twos.

(** Modelled from the spec: [twos.ToBytes] belongs to the gn-bigint
    dependency, whose source is not part of the repository.  Section 4.1:
    "standard minimal two's-complement representation".  A negative
    number is encoded by complementing the bytes of [i + 1], with one more
    [0xff] byte when the sign bit would otherwise be clear; a positive
    one gets a [0x00] byte in front when its top bit is set; zero is
    empty. *)
Definition ToBytes (i : Z) : bytes :=
  if i <? 0 then
    let plus1Bytes := big.Bytes (i + 1) in
    let offset :=
      match plus1Bytes with
      | [] => 1%nat
      | b :: _ => if msb_set b then 1%nat else 0%nat
      end in
    repeat xff offset ++ map byte_not plus1Bytes
  else if i =? 0 then []
  else
    let originalBytes := big.Bytes i in
    match originalBytes with
    | [] => []
    | b :: _ => if msb_set b then x00 :: originalBytes else originalBytes
    end.

(** Modelled from the spec: [twos.ToBytesOfLength] (gn-bigint, not part
    of the repository).  Section 4.1: "two's-complement representation
    padded/validated to exactly width bytes; fails if the value's minimal
    two's-complement representation exceeds width bytes". *)
Definition ToBytesOfLength (i : Z) (bytesLength : Z) : rets :=
  let minimal := ToBytes i in
  if Z.of_nat (List.length minimal) >? bytesLength then
    ([], Some twos_ErrDoesNotFit)
  else
    (repeat (if i <? 0 then xff else x00)
            (Z.to_nat bytesLength - List.length minimal) ++ minimal,
     None).

(** Modelled from the spec: [twos.CopyAlignRight] (gn-bigint, not part of
    the repository).  Section 4.1: "left-pads with zero bytes to width".
    The interpreter calls it only when [len(source) <= length]. *)
Definition CopyAlignRight (source : bytes) (length : Z) : bytes :=
  repeat x00 (Z.to_nat length - List.length source) ++ source.

End twos.

(** ** package orderedjson *)

#[local] Set Warnings "-register-all".

(** Modelled from the spec: the [orderedjson] package is not under src/.
    Section 3: a value is a string, an ordered list, or an ordered list
    of key-value pairs.  [OJsonObject] is a Go interface, so a value of
    any other implementing type is possible: [OJsonOther].  Keys are
    never looked at by the interpreter; their type is left open. *)
Inductive OJsonObject (K : Type) : Type :=
| OJsonString (Value : string)
| OJsonList (AsList : list (OJsonObject K))
| OJsonMap (OrderedKV : list (K * OJsonObject K))
| OJsonOther.

Arguments OJsonString {K} Value.
Arguments OJsonList {K} AsList.
Arguments OJsonMap {K} OrderedKV.
Arguments OJsonOther {K}.

(** ** package mandosvalueinterpreter *)

Definition strPrefixes : list string := ["str:"; "``"; "''"].

Definition addrPrefix := "address:".
Definition filePrefix := "file:".
Definition keccak256Prefix := "keccak256:".

Definition u64Prefix := "u64:".
Definition u32Prefix := "u32:".
Definition u16Prefix := "u16:".
Definition u8Prefix := "u8:".
Definition i64Prefix := "i64:".
Definition i32Prefix := "i32:".
Definition i16Prefix := "i16:".
Definition i8Prefix := "i8:".

(** [%d] of an [int]. *)
Definition itoa (n : Z) : string := NilZero.string_of_int (Z.to_int n).

(** interpreter.go, lines 193-227. *)
Definition interpretUnsignedNumber (strRaw : string) : rets :=
  let str := strings.ReplaceAll_del strRaw "_" in
  let str := strings.ReplaceAll_del str "," in
  if strings.HasPrefix strRaw "0x" || strings.HasPrefix strRaw "0X" then
    let str := strings.slice_from strRaw 2 in
    let str := if (String.length str mod 2 =? 1)%nat then ("0" ++ str)%string else str in
    hex.DecodeString str
  else if strings.HasPrefix strRaw "0b" || strings.HasPrefix strRaw "0B" then
    match big.SetString (strings.slice_from str 2) 2 with
    | None => ([], Some (fmt_Errorf ("could not parse binary value: " ++ strRaw)%string))
    | Some result => (big.Bytes result, None)
    end
  else
    match big.SetString str 10 with
    | None => ([], Some (fmt_Errorf ("could not parse base 10 value: " ++ strRaw)%string))
    | Some result => (big.Bytes result, None)
    end.

(** interpreter.go, lines 229-242. *)
Definition interpretUnsignedNumberFixedWidth (strRaw : string) (targetWidth : Z) : rets :=
  let '(numberBytes, err) := interpretUnsignedNumber strRaw in
  match err with
  | Some e => ([], Some e)
  | None =>
      if targetWidth =? 0 then (numberBytes, None)
      else if Z.of_nat (List.length numberBytes) >? targetWidth then
        ([], Some (fmt_Errorf ("representation of " ++ strRaw ++ " does not fit in "
                                 ++ itoa targetWidth ++ " bytes")%string))
      else (twos.CopyAlignRight numberBytes targetWidth, None)
  end.

(** interpreter.go, lines 167-191.  [strRaw[0]] panics on the empty
    string. *)
Definition interpretNumber (strRaw : string) (targetWidth : Z) : exec rets :=
  match String.get 0 strRaw with
  | None => Panics "index out of range [0] with length 0"
  | Some c0 =>
      if Ascii.eqb c0 "-" || Ascii.eqb c0 "+" then
        let '(numberBytes, err) := interpretUnsignedNumber (strings.slice_from strRaw 1) in
        match err with
        | Some e => Returns ([], Some e)
        | None =>
            let number := big.SetBytes numberBytes in
            let number := if Ascii.eqb c0 "-" then - number else number in
            if targetWidth =? 0 then Returns (twos.ToBytes number, None)
            else Returns (twos.ToBytesOfLength number targetWidth)
        end
      else if targetWidth =? 0 then Returns (interpretUnsignedNumber strRaw)
      else Returns (interpretUnsignedNumberFixedWidth strRaw targetWidth)
  end.

(** The [(bool, []byte, error)] triple of [tryInterpretFixedWidth]. *)
Definition tagged (parsed : bool) (r : exec rets) : exec (bool * rets) :=
  match r with
  | Returns re => Returns (parsed, re)
  | Panics msg => Panics msg
  end.

(** interpreter.go, lines 244-280. *)
Definition tryInterpretFixedWidth (strRaw : string) : exec (bool * rets) :=
  if strings.HasPrefix strRaw u64Prefix then
    tagged true (Returns (interpretUnsignedNumberFixedWidth (strings.slice_from strRaw (String.length u64Prefix)) 8))
  else if strings.HasPrefix strRaw u32Prefix then
    tagged true (Returns (interpretUnsignedNumberFixedWidth (strings.slice_from strRaw (String.length u32Prefix)) 4))
  else if strings.HasPrefix strRaw u16Prefix then
    tagged true (Returns (interpretUnsignedNumberFixedWidth (strings.slice_from strRaw (String.length u16Prefix)) 2))
  else if strings.HasPrefix strRaw u8Prefix then
    tagged true (Returns (interpretUnsignedNumberFixedWidth (strings.slice_from strRaw (String.length u8Prefix)) 1))
  else if strings.HasPrefix strRaw i64Prefix then
    tagged true (interpretNumber (strings.slice_from strRaw (String.length i64Prefix)) 8)
  else if strings.HasPrefix strRaw i32Prefix then
    tagged true (interpretNumber (strings.slice_from strRaw (String.length i32Prefix)) 4)
  else if strings.HasPrefix strRaw i16Prefix then
    tagged true (interpretNumber (strings.slice_from strRaw (String.length i16Prefix)) 2)
  else if strings.HasPrefix strRaw i8Prefix then
    tagged true (interpretNumber (strings.slice_from strRaw (String.length i8Prefix)) 1)
  else Returns (false, ([], None)).

(** The three accumulation loops of the file (lines 48-54, 60-67 and
    121-127) are the same loop: evaluate the items in order, append each
    value to [concat], return at the first error. *)
Section ConcatLoop.
Context {A : Type} (eval : A -> exec rets).

Fixpoint concatLoop (items : list A) (concat : bytes) : exec rets :=
  match items with
  | [] => Returns (concat, None)
  | item :: items' =>
      match eval item with
      | Panics msg => Panics msg
      | Returns (_, Some err) => Returns ([], Some err)
      | Returns (value, None) => concatLoop items' (concat ++ value)
      end
  end.

End ConcatLoop.

Section ValueInterpreter.

(** [vi.FileResolver]: [None] is the nil interface, [Some r] a resolver
    whose [ResolveFileValue] method is [r]. *)
Variable FileResolver : option (string -> rets).

(** [keccak256] and [address] are functions of this package defined
    outside interpreter.go; the interpreter only calls them. *)
Variable keccak256 : bytes -> rets.
Variable address : bytes -> rets.

(** interpreter.go, lines 131-163: what [InterpretString] does once the
    file, keccak256 and concatenation rules have not applied.  No
    recursive call is made from here. *)
Definition InterpretString_literal (strRaw : string) : exec rets :=
  if (strRaw =? "false")%string then Returns ([], None)
  else if (strRaw =? "true")%string then Returns ([x01], None)
  else
    match find (strings.HasPrefix strRaw) strPrefixes with
    | Some strPrefix =>
        Returns (list_byte_of_string (strings.slice_from strRaw (String.length strPrefix)), None)
    | None =>
        if strings.HasPrefix strRaw addrPrefix then
          Returns (address (list_byte_of_string (strings.slice_from strRaw (String.length addrPrefix))))
        else
          match tryInterpretFixedWidth strRaw with
          | Panics msg => Panics msg
          | Returns (_, (_, Some err)) => Returns ([], Some err)
          | Returns (true, (result, None)) => Returns (result, None)
          | Returns (false, (_, None)) => interpretNumber strRaw 0
          end
    end.

(** interpreter.go, lines 84-164, with the recursive calls made through
    [rec]. *)
Definition InterpretString_body (rec : string -> exec rets) (strRaw : string) : exec rets :=
  if (String.length strRaw =? 0)%nat then Returns ([], None)
  else if strings.HasPrefix strRaw filePrefix then
    match FileResolver with
    | None => Returns ([], Some (errors_New "parser FileResolver not provided"))
    | Some ResolveFileValue =>
        match ResolveFileValue (strings.slice_from strRaw (String.length filePrefix)) with
        | (_, Some err) => Returns ([], Some err)
        | (fileContents, None) => Returns (fileContents, None)
        end
    end
  else if strings.HasPrefix strRaw keccak256Prefix then
    match rec (strings.slice_from strRaw (String.length keccak256Prefix)) with
    | Panics msg => Panics msg
    | Returns (_, Some err) =>
        Returns ([], Some (fmt_Errorf_w "cannot parse keccak256 argument: " err))
    | Returns (arg, None) =>
        match keccak256 arg with
        | (_, Some err) => Returns ([], Some (fmt_Errorf_w "error computing keccak256: " err))
        | (hash, None) => Returns (hash, None)
        end
    end
  else
    let parts := strings.Split strRaw "|" in
    if (1 <? List.length parts)%nat then concatLoop rec parts []
    else InterpretString_literal strRaw.

(** The recursion of [InterpretString] is on strictly shorter strings (the
    keccak256 argument, the parts of a concatenation), so [len strRaw + 1]
    unfoldings always suffice; [InterpretString_unfold] below shows that
    the function satisfies the equation of the Go code. *)
Fixpoint InterpretString_fuel (fuel : nat) (strRaw : string) : exec rets :=
  match fuel with
  | O => Panics "out of fuel"
  | S fuel' => InterpretString_body (InterpretString_fuel fuel') strRaw
  end.

Definition InterpretString (strRaw : string) : exec rets :=
  InterpretString_fuel (S (String.length strRaw)) strRaw.

(** interpreter.go, lines 41-72. *)
Fixpoint InterpretSubTree {K : Type} (obj : OJsonObject K) : exec rets :=
  match obj with
  | OJsonString str => InterpretString str
  | OJsonList lst => concatLoop InterpretSubTree lst []
  | OJsonMap mp => concatLoop (fun kvp => InterpretSubTree (snd kvp)) mp []
  | OJsonOther =>
      Returns ([], Some (errors_New "cannot interpret given JSON subtree as value"))
  end.

End ValueInterpreter.

(** ** Auxiliary definitions used in the statements *)

(** Sum of the lengths of the parts of a split. *)
Fixpoint total_len (parts : list string) : nat :=
  match parts with
  | [] => O
  | p :: ps => (String.length p + total_len ps)%nat
  end.

(** Collaborators for closed examples: no file resolver; a resolver over
    a store with the single file "a" holding the byte 0x01; hash and
    address functions that report an error. *)
Definition noResolver : option (string -> rets) := None.

Definition oneFileResolver (name : string) : rets :=
  if (name =? "a")%string then ([x01], None)
  else ([], Some (errors_New "file not found")).

Definition unavailable (_ : bytes) : rets :=
  ([], Some (errors_New "not available")).

(** Every character of the string satisfies the test. *)
Fixpoint allChars (test : ascii -> bool) (s : string) : bool :=
  match s with
  | EmptyString => true
  | String c s' => test c && allChars test s'
  end.

Definition isDecimalDigit (c : ascii) : bool := hex.in_range "0" "9" c.

Definition isHexDigit (c : ascii) : bool :=
  match hex.fromHexChar c with
  | Some _ => true
  | None => false
  end.

(** The number written by a string of digits in the given base, most
    significant digit first, continuing from [acc]. *)
Fixpoint digitsValue (base : Z) (digit : ascii -> Z) (s : string) (acc : Z) : Z :=
  match s with
  | EmptyString => acc
  | String c s' => digitsValue base digit s' (acc * base + digit c)
  end.

Definition decimalValue (s : string) : Z :=
  digitsValue 10 (fun c => Z.of_N (N_of_ascii c) - 48) s 0.

Definition hexValue (s : string) : Z :=
  digitsValue 16 (fun c => match hex.fromHexChar c with Some d => d | None => 0 end) s 0.

(** Both digit-grouping separators removed (lines 194-195). *)
Definition stripSeparators (s : string) : string :=
  strings.ReplaceAll_del (strings.ReplaceAll_del s "_") ",".

(** The fixed-width prefixes with their width in bytes and whether they
    are the signed ones. *)
Definition fixedWidthPrefixes : list (string * Z * bool) :=
  [ (u64Prefix, 8, false); (u32Prefix, 4, false); (u16Prefix, 2, false); (u8Prefix, 1, false);
    (i64Prefix, 8, true); (i32Prefix, 4, true); (i16Prefix, 2, true); (i8Prefix, 1, true) ].

(** What [InterpretString] makes of the result of a fixed-width rule
    (lines 154-160): an error is returned without bytes. *)
Definition fixedWidthResult (r : exec rets) : exec rets :=
  match r with
  | Panics msg => Panics msg
  | Returns (_, Some err) => Returns ([], Some err)
  | Returns (result, None) => Returns (result, None)
  end.

(** The hexadecimal digits as [interpretUnsignedNumber] hands them to the
    decoder (lines 199-202). *)
Definition padded (t : string) : string :=
  if (String.length t mod 2 =? 1)%nat then String "0" t else t.

(** The text starts with a sign (line 169). *)
Definition hasSign (s : string) : bool :=
  match String.get 0 s with
  | Some c0 => Ascii.eqb c0 "-" || Ascii.eqb c0 "+"
  | None => false
  end.

(** The characters a base-10 literal with separators can start with. *)
Definition decimalLead : list ascii := list_ascii_of_string "0123456789_,".

(** ** Further definitions used in the statements *)

(** [hex.EncodeToString]: two digits of [hextable] a byte, the high nibble
    first. *)
Definition hextable : string := "0123456789abcdef".

Definition hextable_at (n : Z) : ascii :=
  match String.get (Z.to_nat n) hextable with
  | Some c => c
  | None => "0"%char
  end.

Fixpoint hex_EncodeToString (src : bytes) : string :=
  match src with
  | [] => EmptyString
  | v :: rest =>
      String (hextable_at (Z_of_byte v / 16))
        (String (hextable_at (Z_of_byte v mod 16)) (hex_EncodeToString rest))
  end.

Definition isBinaryDigit (c : ascii) : bool := hex.in_range "0" "1" c.

Definition binaryValue (s : string) : Z :=
  digitsValue 2 (fun c => Z.of_N (N_of_ascii c) - 48) s 0.

(** A character of a base-10 literal: a digit or a separator. *)
Definition isDecimalText (c : ascii) : bool :=
  isDecimalDigit c || Ascii.eqb c "_" || Ascii.eqb c ",".

Definition isBinaryText (c : ascii) : bool :=
  isBinaryDigit c || Ascii.eqb c "_" || Ascii.eqb c ",".

(** The signed fixed-width prefixes (lines 25-28). *)
Definition signedPrefixes : list string := [i64Prefix; i32Prefix; i16Prefix; i8Prefix].

(** A signed prefix that ends the string or stands right before a
    separator. *)
Definition danglingSigned (s : string) : Prop :=
  exists pre p post,
    In p signedPrefixes /\ s = (pre ++ p ++ post)%string /\
    (post = EmptyString \/ strings.HasPrefix post "|" = true).

(** [strings.Join(parts, sep)] for a one-byte separator. *)
Fixpoint Join (parts : list string) (sep : ascii) : string :=
  match parts with
  | [] => EmptyString
  | [p] => p
  | p :: ps => (p ++ String sep (Join ps sep))%string
  end.

(** The leaves of a tree, left to right: the strings, and the nodes of an
    unknown type. *)
Inductive leaf : Type :=
| LeafString (Value : string)
| LeafOther.

Fixpoint leaves {K : Type} (obj : OJsonObject K) : list leaf :=
  match obj with
  | OJsonString str => [LeafString str]
  | OJsonList lst => flat_map leaves lst
  | OJsonMap mp => flat_map (fun kvp => leaves (snd kvp)) mp
  | OJsonOther => [LeafOther]
  end.

(** The evaluation of one leaf (lines 42-44 and 71). *)
Definition evalLeaf (FileResolver : option (string -> rets))
           (keccak256 address : bytes -> rets) (lf : leaf) : exec rets :=
  match lf with
  | LeafString str => InterpretString FileResolver keccak256 address str
  | LeafOther =>
      Returns ([], Some (errors_New "cannot interpret given JSON subtree as value"))
  end.

(** A list or a map node. *)
Definition isContainer {K : Type} (obj : OJsonObject K) : bool :=
  match obj with
  | OJsonList _ | OJsonMap _ => true
  | _ => false
  end.

(** [danglingSigned], computed: at some position of the string a signed
    prefix starts, followed by the end of the string or by "|". *)
Fixpoint danglingSignedb (s : string) : bool :=
  match s with
  | EmptyString => false
  | String _ s' =>
      existsb (fun p =>
                 strings.HasPrefix s p &&
                 (let post := strings.slice_from s (String.length p) in
                  (post =? "")%string || strings.HasPrefix post "|"))
              signedPrefixes
      || danglingSignedb s'
  end.

(** A stand-in for a hash or address function in closed examples: it
    returns its argument. *)
Definition echo (b : bytes) : rets := (b, None).



(** * Properties *)

(** ** Strings *)

Module strings_facts.
Import strings.

Lemma prefix_nil (s : string) : String.prefix "" s = true.
Proof. destruct s; reflexivity. Qed.

Lemma HasPrefix_append (p s : string) : HasPrefix (p ++ s) p = true.
Proof.
  unfold HasPrefix. induction p as [|c p IH]; simpl.
  - apply prefix_nil.
  - destruct (ascii_dec c c); [exact IH | congruence].
Qed.

Lemma slice_from_append (p s : string) : slice_from (p ++ s) (String.length p) = s.
Proof. induction p as [|c p IH]; simpl; [destruct s; reflexivity | exact IH]. Qed.

Lemma length_append (s t : string) :
  String.length (s ++ t) = (String.length s + String.length t)%nat.
Proof. induction s as [|c s IH]; simpl; [reflexivity | now rewrite IH]. Qed.

Lemma slice_from_length (s : string) (n : nat) :
  String.length (slice_from s n) = (String.length s - n)%nat.
Proof.
  revert s. induction n as [|n IH]; intros s; simpl.
  - lia.
  - destruct s as [|c s]; simpl; [reflexivity | apply IH].
Qed.

(** A prefix test on [e1 ++ sep :: e2] only looks at [e1] when the prefix
    does not contain the separator. *)
Lemma prefix_before_sep (p e1 e2 : string) (sep : ascii) :
  contains p sep = false ->
  String.prefix p (e1 ++ String sep e2) = String.prefix p e1.
Proof.
  revert e1. induction p as [|c p IH]; intros e1 Hp.
  - now rewrite !prefix_nil.
  - simpl in Hp. apply orb_false_iff in Hp as [Hc Hp].
    destruct e1 as [|a e1]; simpl.
    + destruct (ascii_dec c sep) as [->|]; [|reflexivity].
      now rewrite Ascii.eqb_refl in Hc.
    + destruct (ascii_dec c a); [apply IH; exact Hp | reflexivity].
Qed.

(** *** Split *)

Lemma Split_not_nil (s : string) (sep : ascii) : Split s sep <> [].
Proof.
  destruct s as [|c s]; simpl; [discriminate|].
  destruct (Ascii.eqb c sep); [discriminate|].
  destruct (Split s sep); discriminate.
Qed.

(** The parts and the separators between them make up the string. *)
Lemma Split_total_len (s : string) (sep : ascii) :
  (total_len (Split s sep) + List.length (Split s sep) = S (String.length s))%nat.
Proof.
  induction s as [|c s IH]; simpl; [reflexivity|].
  destruct (Ascii.eqb c sep); simpl; [lia|].
  destruct (Split s sep) as [|p ps] eqn:E; simpl in *; lia.
Qed.

Lemma total_len_In (parts : list string) (p : string) :
  In p parts -> (String.length p <= total_len parts)%nat.
Proof.
  induction parts as [|q qs IH]; simpl; [tauto|].
  intros [->|H]; [lia | apply IH in H; lia].
Qed.

Lemma Split_part_shorter (s : string) (sep : ascii) (p : string) :
  (1 < List.length (Split s sep))%nat -> In p (Split s sep) ->
  (String.length p < String.length s)%nat.
Proof.
  intros Hn Hin. apply total_len_In in Hin.
  pose proof (Split_total_len s sep). lia.
Qed.

Lemma Split_no_sep (s : string) (sep : ascii) :
  contains s sep = false -> Split s sep = [s].
Proof.
  induction s as [|c s IH]; simpl; [reflexivity|].
  intros H. apply orb_false_iff in H as [Hc Hs].
  rewrite Hc, (IH Hs). reflexivity.
Qed.

Lemma Split_with_sep (s : string) (sep : ascii) :
  contains s sep = true -> (1 < List.length (Split s sep))%nat.
Proof.
  induction s as [|c s IH]; simpl; [discriminate|].
  destruct (Ascii.eqb c sep) eqn:Hc; simpl.
  - intros _. pose proof (Split_not_nil s sep).
    destruct (Split s sep); simpl; [congruence | lia].
  - intros H. apply IH in H.
    destruct (Split s sep); simpl in *; lia.
Qed.

(** Splitting a string joined by the separator splits both sides. *)
Lemma Split_join (e1 e2 : string) (sep : ascii) :
  Split (e1 ++ String sep e2) sep = Split e1 sep ++ Split e2 sep.
Proof.
  induction e1 as [|c e1 IH]; simpl.
  - now rewrite Ascii.eqb_refl.
  - destruct (Ascii.eqb c sep); simpl; [now rewrite IH|].
    rewrite IH. pose proof (Split_not_nil e1 sep).
    destruct (Split e1 sep); [congruence | reflexivity].
Qed.

End strings_facts.

(** ** Bytes and big integers *)

Import strings strings_facts big.

Lemma Z_of_byte_range (b : byte) : 0 <= Z_of_byte b < 256.
Proof.
  unfold Z_of_byte. pose proof (Byte.to_N_bounded b). lia.
Qed.

Lemma Z_of_byte_of_Z (z : Z) : Z_of_byte (byte_of_Z z) = z mod 256.
Proof.
  unfold byte_of_Z, Z_of_byte.
  pose proof (Z.mod_pos_bound z 256 ltac:(lia)) as Hb.
  destruct (Byte.of_N (Z.to_N (z mod 256))) as [b|] eqn:E.
  - apply Byte.to_of_N in E. rewrite E. lia.
  - apply Byte.of_N_None_iff in E. lia.
Qed.

Lemma byte_of_Z_of_byte (b : byte) : byte_of_Z (Z_of_byte b) = b.
Proof.
  unfold byte_of_Z. pose proof (Z_of_byte_range b) as Hb.
  rewrite Z.mod_small by exact Hb. unfold Z_of_byte.
  rewrite N2Z.id, Byte.of_to_N. reflexivity.
Qed.

Lemma byte_of_Z_mod (z : Z) : byte_of_Z (z mod 256) = byte_of_Z z.
Proof. unfold byte_of_Z. now rewrite Z.mod_mod by lia. Qed.

Lemma byte_of_Z_congr (a b : Z) : a mod 256 = b mod 256 -> byte_of_Z a = byte_of_Z b.
Proof. unfold byte_of_Z. now intros ->. Qed.


Lemma length_be_bytes (w : nat) (n : Z) : List.length (be_bytes w n) = w.
Proof.
  revert n. induction w as [|w IH]; intros n; simpl; [reflexivity|].
  rewrite length_app, IH. simpl. lia.
Qed.

Lemma SetBytes_snoc (bs : bytes) (b : byte) :
  SetBytes (bs ++ [b]) = SetBytes bs * 256 + Z_of_byte b.
Proof. unfold SetBytes. now rewrite fold_left_app. Qed.

Lemma SetBytes_range (bs : bytes) : 0 <= SetBytes bs < 256 ^ Z.of_nat (List.length bs).
Proof.
  induction bs as [|b bs IH] using rev_ind.
  - cbn. lia.
  - rewrite SetBytes_snoc, length_app. simpl List.length.
    replace (Z.of_nat (List.length bs + 1)) with (Z.succ (Z.of_nat (List.length bs))) by lia.
    rewrite Z.pow_succ_r by lia.
    pose proof (Z_of_byte_range b). lia.
Qed.

Lemma SetBytes_be_bytes (w : nat) (n : Z) :
  SetBytes (be_bytes w n) = n mod 256 ^ Z.of_nat w.
Proof.
  revert n. induction w as [|w IH]; intros n.
  - cbn. now rewrite Z.mod_1_r.
  - simpl be_bytes. rewrite SetBytes_snoc, IH, Z_of_byte_of_Z.
    replace (Z.of_nat (S w)) with (Z.succ (Z.of_nat w)) by lia.
    rewrite Z.pow_succ_r by lia.
    rewrite Z.rem_mul_r by lia. lia.
Qed.

Lemma be_bytes_SetBytes (bs : bytes) : be_bytes (List.length bs) (SetBytes bs) = bs.
Proof.
  induction bs as [|b bs IH] using rev_ind; [reflexivity|].
  rewrite length_app, Nat.add_1_r, SetBytes_snoc. simpl be_bytes.
  pose proof (Z_of_byte_range b) as Hb.
  replace ((SetBytes bs * 256 + Z_of_byte b) / 256) with (SetBytes bs).
  2:{ rewrite Z.div_add_l by lia. rewrite Z.div_small by lia. lia. }
  rewrite IH. f_equal. f_equal.
  rewrite <- byte_of_Z_mod, Z.add_comm, Z.mod_add by lia.
  rewrite Z.mod_small by lia. apply byte_of_Z_of_byte.
Qed.

Lemma SetBytes_zeros (k : nat) (bs : bytes) : SetBytes (repeat x00 k ++ bs) = SetBytes bs.
Proof.
  unfold SetBytes. rewrite fold_left_app. f_equal.
  induction k as [|k IH]; simpl; [reflexivity | exact IH].
Qed.

(** A fixed-width representation is the narrower one padded with zero bytes. *)
Lemma be_bytes_pad (k w : nat) (n : Z) :
  0 <= n < 256 ^ Z.of_nat w ->
  be_bytes (k + w) n = repeat x00 k ++ be_bytes w n.
Proof.
  intros Hn.
  pose proof (be_bytes_SetBytes (repeat x00 k ++ be_bytes w n)) as H.
  rewrite length_app, repeat_length, length_be_bytes in H.
  rewrite SetBytes_zeros, SetBytes_be_bytes, Z.mod_small in H by exact Hn.
  exact H.
Qed.

Lemma pow256 (k : Z) : 0 <= k -> 256 ^ k = 2 ^ (8 * k).
Proof. intros Hk. now rewrite Z.pow_mul_r by lia. Qed.

Lemma byteLen_upper (n : Z) : 0 <= n -> n < 256 ^ Z.of_nat (byteLen n).
Proof.
  intros Hn. unfold byteLen. destruct (n <=? 0) eqn:E.
  - apply Z.leb_le in E. cbn. lia.
  - apply Z.leb_gt in E.
    pose proof (Z.log2_nonneg n) as HL.
    pose proof (Z.log2_spec n E) as [_ Hs].
    assert (0 <= (Z.log2 n + 8) / 8) by (apply Z.div_pos; lia).
    rewrite Z2Nat.id by assumption. rewrite pow256 by assumption.
    eapply Z.lt_le_trans; [exact Hs|].
    apply Z.pow_le_mono_r; [lia|].
    pose proof (Z.mul_div_le (Z.log2 n + 8) 8 ltac:(lia)).
    pose proof (Z.mod_pos_bound (Z.log2 n + 8) 8 ltac:(lia)).
    pose proof (Z.div_mod (Z.log2 n + 8) 8 ltac:(lia)). lia.
Qed.

Lemma byteLen_lower (n : Z) : 0 < n -> 256 ^ (Z.of_nat (byteLen n) - 1) <= n.
Proof.
  intros Hn. unfold byteLen. destruct (n <=? 0) eqn:E.
  - apply Z.leb_le in E. lia.
  - pose proof (Z.log2_nonneg n) as HL.
    pose proof (Z.log2_spec n Hn) as [Hs _].
    assert (1 <= (Z.log2 n + 8) / 8) by (apply Z.div_le_lower_bound; lia).
    rewrite Z2Nat.id by lia. rewrite pow256 by lia.
    eapply Z.le_trans; [|exact Hs].
    apply Z.pow_le_mono_r; [lia|].
    pose proof (Z.mul_div_le (Z.log2 n + 8) 8 ltac:(lia)). lia.
Qed.

Lemma byteLen_le_iff (n : Z) (w : nat) :
  0 <= n -> (byteLen n <= w)%nat <-> n < 256 ^ Z.of_nat w.
Proof.
  intros Hn. split.
  - intros H. eapply Z.lt_le_trans; [apply byteLen_upper; exact Hn|].
    apply Z.pow_le_mono_r; lia.
  - intros H. destruct (Z.eq_dec n 0) as [->|Hne]; [cbn; lia|].
    pose proof (byteLen_lower n ltac:(lia)) as Hl.
    destruct (Nat.le_gt_cases (byteLen n) w) as [|Hgt]; [assumption|].
    exfalso.
    assert (256 ^ Z.of_nat w <= 256 ^ (Z.of_nat (byteLen n) - 1))
      by (apply Z.pow_le_mono_r; lia).
    lia.
Qed.

Lemma length_Bytes (x : Z) : List.length (Bytes x) = byteLen (Z.abs x).
Proof. apply length_be_bytes. Qed.

Lemma SetBytes_Bytes (x : Z) : SetBytes (Bytes x) = Z.abs x.
Proof.
  unfold Bytes. rewrite SetBytes_be_bytes.
  apply Z.mod_small. split; [lia | apply byteLen_upper; lia].
Qed.


(** ** Parsing digits *)


Lemma string_pair_ind (P : string -> Prop) :
  P "" -> (forall c, P (String c "")) ->
  (forall c d s, P s -> P (String c (String d s))) ->
  forall s, P s.
Proof.
  intros H0 H1 H2 s.
  assert (H : P s /\ forall c, P (String c s)).
  { induction s as [|d s [IHs IHc]]; split; auto. }
  apply H.
Qed.

Lemma ReplaceAll_del_absent (s : string) (c : ascii) :
  contains s c = false -> ReplaceAll_del s c = s.
Proof.
  induction s as [|a s IH]; simpl; [reflexivity|].
  intros H. apply orb_false_iff in H as [Ha Hs].
  rewrite Ha, (IH Hs). reflexivity.
Qed.

Lemma allChars_contains (test : ascii -> bool) (s : string) (c : ascii) :
  allChars test s = true -> test c = false -> contains s c = false.
Proof.
  intros Hs Hc. induction s as [|a s IH]; simpl in *; [reflexivity|].
  apply andb_true_iff in Hs as [Ha Hs]. rewrite (IH Hs), orb_false_r.
  destruct (Ascii.eqb_spec a c) as [->|]; [congruence | reflexivity].
Qed.

Lemma stripSeparators_digits (test : ascii -> bool) (s : string) :
  test "_"%char = false -> test ","%char = false ->
  allChars test s = true -> stripSeparators s = s.
Proof.
  intros H1 H2 Hs. unfold stripSeparators.
  rewrite (ReplaceAll_del_absent s "_") by (eapply allChars_contains; eauto).
  apply ReplaceAll_del_absent. eapply allChars_contains; eauto.
Qed.

(** *** math/big *)

Lemma in_range_spec (lo hi c : ascii) :
  hex.in_range lo hi c = true <->
  (N_of_ascii lo <= N_of_ascii c <= N_of_ascii hi)%N.
Proof.
  unfold hex.in_range. rewrite andb_true_iff, !N.leb_le. tauto.
Qed.

Lemma scanDigits_decimal (s : string) (acc : Z) :
  allChars isDecimalDigit s = true ->
  big.scanDigits 10 s acc =
  Some (digitsValue 10 (fun c => Z.of_N (N_of_ascii c) - 48) s acc).
Proof.
  revert acc. induction s as [|c s IH]; intros acc H; simpl in *; [reflexivity|].
  apply andb_true_iff in H as [Hc Hs].
  unfold big.digitVal. unfold isDecimalDigit in Hc. rewrite Hc.
  apply in_range_spec in Hc. cbn in Hc.
  destruct (Z.of_N (N_of_ascii c) - 48 >=? 10) eqn:E; [lia|].
  apply IH. exact Hs.
Qed.

Lemma digitsValue_decimal_nonneg (base : Z) (s : string) (acc : Z) :
  0 <= base -> allChars isDecimalDigit s = true -> 0 <= acc ->
  0 <= digitsValue base (fun c => Z.of_N (N_of_ascii c) - 48) s acc.
Proof.
  intros Hb. revert acc. induction s as [|c s IH]; intros acc H Hacc; simpl in *; [exact Hacc|].
  apply andb_true_iff in H as [Hc Hs].
  apply IH; [exact Hs|]. apply in_range_spec in Hc. cbn in Hc. nia.
Qed.

Lemma decimalValue_nonneg (s : string) :
  allChars isDecimalDigit s = true -> 0 <= decimalValue s.
Proof. intros H. apply digitsValue_decimal_nonneg; [lia | exact H | lia]. Qed.

(** A signed string of decimal digits parses in base 10. *)
Lemma SetString_decimal (s : string) :
  s <> "" -> allChars isDecimalDigit s = true ->
  big.SetString s 10 = Some (decimalValue s) /\
  big.SetString (String "-" s) 10 = Some (- decimalValue s) /\
  big.SetString (String "+" s) 10 = Some (decimalValue s).
Proof.
  intros Hne Hs. pose proof (scanDigits_decimal s 0 Hs) as Hscan.
  destruct s as [|c s]; [congruence|].
  assert (Hc : Ascii.eqb c "-" || Ascii.eqb c "+" = false).
  { simpl in Hs. apply andb_true_iff in Hs as [Hc _].
    apply in_range_spec in Hc. cbn in Hc.
    apply orb_false_iff; split; apply Ascii.eqb_neq; intros ->; cbn in Hc; lia. }
  unfold big.SetString.
  apply orb_false_iff in Hc as Hc'. destruct Hc' as [Hm Hp].
  rewrite Hc, Hm. cbn [Ascii.eqb orb]. cbn -[big.scanDigits].
  rewrite Hscan. auto.
Qed.


(** *** encoding/hex *)

Lemma fromHexChar_range (c : ascii) (d : Z) :
  hex.fromHexChar c = Some d -> 0 <= d < 16.
Proof.
  unfold hex.fromHexChar.
  destruct (hex.in_range "0" "9" c) eqn:H1;
    [|destruct (hex.in_range "a" "f" c) eqn:H2;
      [|destruct (hex.in_range "A" "F" c) eqn:H3; [|discriminate]]];
    intros [= <-];
    match goal with H : hex.in_range _ _ _ = true |- _ =>
      apply in_range_spec in H; cbn in H end; lia.
Qed.

Lemma length_pair_mod (n : nat) : (S (S n) mod 2 = n mod 2)%nat.
Proof.
  replace (S (S n)) with (n + 1 * 2)%nat by lia. apply Nat.Div0.mod_add.
Qed.

Lemma length_pair_div (n : nat) : (S (S n) / 2 = S (n / 2))%nat.
Proof.
  replace (S (S n)) with (n + 1 * 2)%nat by lia. rewrite Nat.div_add by lia. lia.
Qed.

#[local] Abbreviation hexDigit :=
  (fun c => match hex.fromHexChar c with Some d => d | None => 0 end).

(** An even number of hexadecimal digits decodes, two digits a byte. *)
Lemma DecodeString_digits (s : string) :
  allChars isHexDigit s = true ->
  (String.length s mod 2 =? 1)%nat = false ->
  exists bs, hex.DecodeString s = (bs, None) /\
             List.length bs = (String.length s / 2)%nat /\
             forall acc, fold_left (fun a b => a * 256 + Z_of_byte b) bs acc
                         = digitsValue 16 hexDigit s acc.
Proof.
  induction s as [|c|c d s IH] using string_pair_ind; intros Hs Hlen.
  - exists []. repeat split.
  - discriminate.
  - simpl in Hs. unfold isHexDigit in Hs.
    destruct (hex.fromHexChar c) as [a|] eqn:Hc; [|discriminate].
    destruct (hex.fromHexChar d) as [b|] eqn:Hd; [|discriminate].
    simpl in Hs. simpl String.length in Hlen. rewrite length_pair_mod in Hlen.
    destruct (IH Hs Hlen) as (bs & E & Hl & Hv).
    exists (byte_of_Z (a * 16 + b) :: bs).
    simpl hex.DecodeString. rewrite Hc, Hd, E. split; [reflexivity|]. split.
    + cbn [List.length String.length]. rewrite length_pair_div. now rewrite Hl.
    + intros acc. simpl. rewrite Hc, Hd, Hv. f_equal.
      rewrite Z_of_byte_of_Z.
      apply fromHexChar_range in Hc, Hd. rewrite Z.mod_small by lia. lia.
Qed.



(** *** interpretUnsignedNumber *)

Lemma interpretUnsignedNumber_hex (p t : string) :
  p = "0x" \/ p = "0X" ->
  interpretUnsignedNumber (p ++ t) = hex.DecodeString (padded t).
Proof.
  intros [-> | ->]; unfold interpretUnsignedNumber, HasPrefix; simpl;
    rewrite prefix_nil; reflexivity.
Qed.

Lemma interpretUnsignedNumber_binary (p t : string) :
  p = "0b" \/ p = "0B" ->
  interpretUnsignedNumber (p ++ t) =
  match big.SetString (stripSeparators t) 2 with
  | None => ([], Some (fmt_Errorf ("could not parse binary value: " ++ p ++ t)%string))
  | Some v => (big.Bytes v, None)
  end.
Proof.
  intros [-> | ->]; unfold interpretUnsignedNumber, HasPrefix, stripSeparators; simpl;
    rewrite prefix_nil; reflexivity.
Qed.

Lemma interpretUnsignedNumber_decimal (s : string) :
  HasPrefix s "0x" = false -> HasPrefix s "0X" = false ->
  HasPrefix s "0b" = false -> HasPrefix s "0B" = false ->
  interpretUnsignedNumber s =
  match big.SetString (stripSeparators s) 10 with
  | None => ([], Some (fmt_Errorf ("could not parse base 10 value: " ++ s)%string))
  | Some v => (big.Bytes v, None)
  end.
Proof.
  intros H1 H2 H3 H4. unfold interpretUnsignedNumber.
  rewrite H1, H2, H3, H4. reflexivity.
Qed.



(** *** Two's complement *)

Lemma gtb_false (a b : Z) : a <= b -> (a >? b) = false.
Proof. intros H. rewrite Z.gtb_ltb. now apply Z.ltb_ge. Qed.

Lemma gtb_true (a b : Z) : b < a -> (a >? b) = true.
Proof. intros H. rewrite Z.gtb_ltb. now apply Z.ltb_lt. Qed.

Lemma be_bytes_head (k : nat) (m : Z) :
  be_bytes (S k) m = byte_of_Z (m / 256 ^ Z.of_nat k) :: be_bytes k m.
Proof.
  revert m. induction k as [|k IH]; intros m.
  - cbn. now rewrite Z.div_1_r.
  - change (be_bytes (S (S k)) m) with (be_bytes (S k) (m / 256) ++ [byte_of_Z m]).
    rewrite IH.
    change (be_bytes (S k) m) with (be_bytes k (m / 256) ++ [byte_of_Z m]).
    rewrite <- app_comm_cons. f_equal. f_equal.
    assert (Hp : 0 < 256 ^ Z.of_nat k) by (apply Z.pow_pos_nonneg; lia).
    rewrite Z.div_div by lia. f_equal.
    rewrite Nat2Z.inj_succ, Z.pow_succ_r by lia. reflexivity.
Qed.

Lemma byte_not_of_Z (m : Z) : byte_not (byte_of_Z m) = byte_of_Z (- m - 1).
Proof.
  unfold byte_not. rewrite Z_of_byte_of_Z. apply byte_of_Z_congr.
  replace (255 - m mod 256) with (- m - 1 + (m / 256 + 1) * 256)
    by (pose proof (Z.div_mod m 256 ltac:(lia)); lia).
  now rewrite Z.mod_add by lia.
Qed.

(** Complementing every byte of [m] gives the bytes of [-m-1]. *)
Lemma be_bytes_not (k : nat) (m : Z) :
  map byte_not (be_bytes k m) = be_bytes k (- m - 1).
Proof.
  revert m. induction k as [|k IH]; intros m; simpl; [reflexivity|].
  rewrite map_app, IH. simpl. rewrite byte_not_of_Z. f_equal. f_equal.
  pose proof (Z.div_mod m 256 ltac:(lia)).
  pose proof (Z.mod_pos_bound m 256 ltac:(lia)).
  apply Z.div_unique with (r := 255 - m mod 256); lia.
Qed.

Lemma pad_to (w k j : nat) (n : Z) :
  0 <= n < 256 ^ Z.of_nat k -> (j + k = w)%nat ->
  repeat x00 j ++ be_bytes k n = be_bytes w n.
Proof. intros Hn <-. symmetry. now apply be_bytes_pad. Qed.

(** Sign extension of a negative number. *)
Lemma be_bytes_pad_neg (j k : nat) (i : Z) :
  - 256 ^ Z.of_nat k <= i < 0 ->
  be_bytes (j + k) i = repeat xff j ++ be_bytes k i.
Proof.
  intros Hi.
  pose proof (be_bytes_not (j + k) (- i - 1)) as H1.
  pose proof (be_bytes_not k (- i - 1)) as H2.
  replace (- (- i - 1) - 1) with i in H1, H2 by lia.
  rewrite <- H1, <- H2, be_bytes_pad by lia.
  rewrite map_app, map_repeat. reflexivity.
Qed.

Lemma half_pow (w : nat) : (0 < w)%nat ->
  2 ^ (8 * Z.of_nat w - 1) = 128 * 256 ^ (Z.of_nat w - 1).
Proof.
  intros Hw. rewrite pow256 by lia.
  replace (8 * Z.of_nat w - 1) with (7 + 8 * (Z.of_nat w - 1)) by lia.
  rewrite Z.pow_add_r by lia. reflexivity.
Qed.

(** The first byte of the shortest representation and its top bit. *)
Lemma Bytes_head (m : Z) : 0 < m ->
  exists b tl, Bytes m = b :: tl /\
    (msb_set b = true <-> 128 * 256 ^ (Z.of_nat (byteLen m) - 1) <= m).
Proof.
  intros Hm. unfold Bytes. rewrite Z.abs_eq by lia.
  pose proof (byteLen_upper m ltac:(lia)) as Hu.
  pose proof (byteLen_lower m Hm) as Hl.
  destruct (byteLen m) as [|k] eqn:E.
  - cbn in Hu. lia.
  - rewrite be_bytes_head. eexists _, _. split; [reflexivity|].
    replace (Z.of_nat (S k) - 1) with (Z.of_nat k) in * by lia.
    replace (Z.of_nat (S k)) with (Z.succ (Z.of_nat k)) in Hu by lia.
    rewrite Z.pow_succ_r in Hu by lia.
    assert (Hp : 0 < 256 ^ Z.of_nat k) by (apply Z.pow_pos_nonneg; lia).
    unfold msb_set. rewrite Z_of_byte_of_Z, Z.leb_le.
    assert (Hq : 0 <= m / 256 ^ Z.of_nat k < 256).
    { split; [apply Z.div_pos; lia | apply Z.div_lt_upper_bound; lia]. }
    rewrite Z.mod_small by exact Hq.
    split; intros H.
    + pose proof (Z.mul_div_le m _ Hp). nia.
    + apply Z.div_le_lower_bound; lia.
Qed.

(** Length of the shortest two's-complement representation of a
    magnitude [m > 0] whose first byte is [b]. *)
Lemma signed_length_fits (m : Z) (w : nat) (top : bool) :
  0 < m -> (0 < w)%nat ->
  (top = true <-> 128 * 256 ^ (Z.of_nat (byteLen m) - 1) <= m) ->
  ((byteLen m + (if top then 1 else 0) <= w)%nat <-> m < 2 ^ (8 * Z.of_nat w - 1)).
Proof.
  intros Hm Hw Htop. rewrite half_pow by exact Hw.
  pose proof (byteLen_upper m ltac:(lia)) as Hu.
  pose proof (byteLen_lower m Hm) as Hl.
  assert (Hk : (0 < byteLen m)%nat).
  { destruct (byteLen m); [cbn in Hu; lia | lia]. }
  set (K := Z.of_nat (byteLen m)) in *. set (W := Z.of_nat w).
  assert (HK : 1 <= K) by lia. assert (HW : 1 <= W) by lia.
  assert (Hmono : forall a b, 0 <= a <= b -> 256 ^ a <= 256 ^ b)
    by (intros; apply Z.pow_le_mono_r; lia).
  assert (Hsucc : forall a, 0 <= a -> 256 ^ (a + 1) = 256 * 256 ^ a)
    by (intros; rewrite Z.pow_add_r by lia; lia).
  assert (Hpos : forall a, 0 <= a -> 0 < 256 ^ a)
    by (intros; apply Z.pow_pos_nonneg; lia).
  destruct top.
  - assert (Ht : 128 * 256 ^ (K - 1) <= m) by (apply Htop; reflexivity).
    split; intros H.
    + assert (K <= W - 1) by lia.
      pose proof (Hmono K (W - 1) ltac:(lia)). pose proof (Hpos (W - 1) ltac:(lia)). lia.
    + destruct (Z.lt_ge_cases K W) as [|Hge]; [lia|]. exfalso.
      pose proof (Hmono (W - 1) (K - 1) ltac:(lia)). lia.
  - assert (Ht : m < 128 * 256 ^ (K - 1)).
    { destruct (Z.lt_ge_cases m (128 * 256 ^ (K - 1))) as [|Hge]; [assumption|].
      apply Htop in Hge. discriminate. }
    split; intros H.
    + pose proof (Hmono (K - 1) (W - 1) ltac:(lia)). lia.
    + destruct (Z.le_gt_cases K W) as [|Hgt]; [lia|]. exfalso.
      pose proof (Hmono W (K - 1) ltac:(lia)).
      pose proof (Hsucc (W - 1) ltac:(lia)) as Hs.
      replace (W - 1 + 1) with W in Hs by lia.
      pose proof (Hpos (W - 1) ltac:(lia)). lia.
Qed.

(** The model of [twos.ToBytesOfLength] is the standard encoding: it
    succeeds exactly on the range of a signed [w]-byte integer, with the
    [w] low-order bytes of the number. *)
Lemma ToBytesOfLength_spec (i : Z) (w : Z) :
  0 < w ->
  twos.ToBytesOfLength i w =
  if (- 2 ^ (8 * w - 1) <=? i) && (i <? 2 ^ (8 * w - 1))
  then (be_bytes (Z.to_nat w) i, None)
  else ([], Some twos_ErrDoesNotFit).
Proof.
  intros Hw.
  assert (Hwn : (0 < Z.to_nat w)%nat) by lia.
  assert (HwZ : 8 * w - 1 = 8 * Z.of_nat (Z.to_nat w) - 1) by lia.
  assert (Hhalf : 0 < 2 ^ (8 * w - 1)) by (apply Z.pow_pos_nonneg; lia).
  unfold twos.ToBytesOfLength, twos.ToBytes.
  destruct (i <? 0) eqn:Hneg; [apply Z.ltb_lt in Hneg | apply Z.ltb_ge in Hneg].
  - (* negative *)
    remember (- i - 1) as m eqn:Em.
    assert (Hm : 0 <= m) by lia.
    assert (Habs : Z.abs (i + 1) = m) by lia.
    assert (HB : Bytes (i + 1) = be_bytes (byteLen m) m)
      by (unfold Bytes; now rewrite Habs).
    assert (Hi : i = - m - 1) by lia.
    destruct (Z.eq_dec m 0) as [Hm0|Hm0].
    + (* i = -1 *)
      rewrite HB, Hm0. cbn [byteLen Z.leb Z.compare be_bytes map repeat app List.length].
      assert (Hi1 : i = -1) by lia. clear Em Hi Habs HB. subst i.
      replace (Z.of_nat 1 >? w) with false by (symmetry; apply gtb_false; lia).
      replace ((- 2 ^ (8 * w - 1) <=? -1) && (-1 <? 2 ^ (8 * w - 1))) with true
        by (symmetry; apply andb_true_iff; split; [apply Z.leb_le | apply Z.ltb_lt]; lia).
      f_equal.
      replace (Z.to_nat w) with ((Z.to_nat w - 1) + 1)%nat at 2 by lia.
      rewrite be_bytes_pad_neg by (cbn; lia). reflexivity.
    + destruct (Bytes_head m ltac:(lia)) as (b & tl & Hb & Hmsb).
      pose proof (signed_length_fits m (Z.to_nat w) (msb_set b) ltac:(lia) Hwn Hmsb) as Hfit.
      rewrite <- HwZ in Hfit.
      assert (Hb' : Bytes (i + 1) = b :: tl) by (rewrite HB; unfold Bytes in Hb;
        rewrite Z.abs_eq in Hb by lia; exact Hb).
      rewrite Hb'. rewrite <- Hb', HB, be_bytes_not, <- Hi.
      rewrite length_app, repeat_length, length_be_bytes.
      assert (Hlen : (if msb_set b then 1 else 0)%nat = (if msb_set b then 1%nat else 0%nat))
        by reflexivity.
      pose proof (byteLen_upper m Hm) as Hu.
      destruct ((- 2 ^ (8 * w - 1) <=? i) && (i <? 2 ^ (8 * w - 1))) eqn:Hr.
      * apply andb_true_iff in Hr as [Hr1 _]. apply Z.leb_le in Hr1.
        assert (Hok : (byteLen m + (if msb_set b then 1 else 0) <= Z.to_nat w)%nat)
          by (apply Hfit; lia).
        replace (Z.of_nat _ >? w) with false
          by (symmetry; apply gtb_false; destruct (msb_set b); lia).
        f_equal. rewrite app_assoc, <- repeat_app.
        replace (Z.to_nat w) with
          ((Z.to_nat w - ((if msb_set b then 1 else 0) + byteLen m)
            + (if msb_set b then 1 else 0)) + byteLen m)%nat at 2
          by (destruct (msb_set b); lia).
        rewrite be_bytes_pad_neg by lia. reflexivity.
      * replace (Z.of_nat _ >? w) with true; [reflexivity|].
        symmetry. apply gtb_true.
        apply andb_false_iff in Hr as [Hr|Hr];
          [apply Z.leb_gt in Hr | apply Z.ltb_ge in Hr; lia].
        assert (Hno : ~ (byteLen m + (if msb_set b then 1 else 0) <= Z.to_nat w)%nat)
          by (rewrite Hfit; lia).
        destruct (msb_set b); lia.
  - destruct (i =? 0) eqn:Hz; [apply Z.eqb_eq in Hz | apply Z.eqb_neq in Hz].
    + subst i. cbn [List.length]. 
      replace (Z.of_nat 0 >? w) with false by (symmetry; apply gtb_false; lia).
      replace ((- 2 ^ (8 * w - 1) <=? 0) && (0 <? 2 ^ (8 * w - 1))) with true
        by (symmetry; apply andb_true_iff; split; [apply Z.leb_le | apply Z.ltb_lt]; lia).
      f_equal. rewrite Nat.sub_0_r.
      replace (Z.to_nat w) with (Z.to_nat w + 0)%nat at 2 by lia.
      rewrite be_bytes_pad by (cbn; lia). reflexivity.
    + assert (Hpos : 0 < i) by lia.
      destruct (Bytes_head i Hpos) as (b & tl & Hb & Hmsb).
      pose proof (signed_length_fits i (Z.to_nat w) (msb_set b) Hpos Hwn Hmsb) as Hfit.
      rewrite <- HwZ in Hfit.
      pose proof (byteLen_upper i ltac:(lia)) as Hu.
      assert (HBe : Bytes i = be_bytes (byteLen i) i)
        by (unfold Bytes; rewrite Z.abs_eq by lia; reflexivity).
      assert (HBl : S (List.length tl) = byteLen i).
      { rewrite <- (length_be_bytes (byteLen i) i), <- HBe, Hb. reflexivity. }
      rewrite Hb. cbv beta iota zeta.
      destruct (msb_set b) eqn:Hb7; cbn [List.length];
        (destruct ((- 2 ^ (8 * w - 1) <=? i) && (i <? 2 ^ (8 * w - 1))) eqn:Hr;
         [ apply andb_true_iff in Hr as [_ Hr2]; apply Z.ltb_lt in Hr2;
           apply Hfit in Hr2; rewrite gtb_false by lia; f_equal;
           rewrite <- Hb, HBe
         | rewrite gtb_true; [reflexivity|];
           apply andb_false_iff in Hr as [Hr|Hr];
           [ apply Z.leb_gt in Hr; lia | apply Z.ltb_ge in Hr ];
           assert (Hno : ~ (byteLen i + (if true then 1 else 0) <= Z.to_nat w)%nat
                         \/ ~ (byteLen i + (if false then 1 else 0) <= Z.to_nat w)%nat)
             by (first [left; rewrite Hfit; lia | right; rewrite Hfit; lia]);
           lia ]).
      * change (x00 :: be_bytes (byteLen i) i)
          with (repeat x00 1 ++ be_bytes (byteLen i) i).
        rewrite app_assoc, <- repeat_app. apply pad_to; lia.
      * apply pad_to; lia.
Qed.

(** ** The accumulation loop *)

Section concatLoop_facts.
Context {A : Type} (eval : A -> exec rets).

(** The accumulator is a prefix of a successful result and does not
    influence failure. *)
Lemma concatLoop_acc (items : list A) (acc : bytes) :
  concatLoop eval items acc =
  match concatLoop eval items [] with
  | Returns (value, None) => Returns (acc ++ value, None)
  | other => other
  end.
Proof.
  revert acc. induction items as [|x xs IH]; intros acc; simpl.
  - now rewrite app_nil_r.
  - destruct (eval x) as [[v [err|]]|]; try reflexivity.
    rewrite (IH (acc ++ v)), (IH v).
    destruct (concatLoop eval xs []) as [[w [err|]]|]; try reflexivity.
    now rewrite app_assoc.
Qed.

Lemma concatLoop_app (l1 l2 : list A) (acc b : bytes) :
  concatLoop eval l1 acc = Returns (b, None) ->
  concatLoop eval (l1 ++ l2) acc = concatLoop eval l2 b.
Proof.
  revert acc. induction l1 as [|x xs IH]; intros acc; simpl.
  - congruence.
  - destruct (eval x) as [[v [err|]]|]; try discriminate. apply IH.
Qed.

Lemma concatLoop_all_ok (items : list A) (values : list bytes) (acc : bytes) :
  Forall2 (fun x v => eval x = Returns (v, None)) items values ->
  concatLoop eval items acc = Returns (acc ++ List.concat values, None).
Proof.
  intros H. revert acc. induction H as [|x v xs vs Hx _ IH]; intros acc; simpl.
  - now rewrite app_nil_r.
  - rewrite Hx, IH, app_assoc. reflexivity.
Qed.

Lemma concatLoop_first_error (pre post : list A) (x : A) (values : list bytes)
      (acc b : bytes) (err : error) :
  Forall2 (fun x v => eval x = Returns (v, None)) pre values ->
  eval x = Returns (b, Some err) ->
  concatLoop eval (pre ++ x :: post) acc = Returns ([], Some err).
Proof.
  intros Hpre Hx.
  rewrite (concatLoop_app pre (x :: post) acc (acc ++ List.concat values)).
  - simpl. now rewrite Hx.
  - now apply concatLoop_all_ok.
Qed.

End concatLoop_facts.

Lemma concatLoop_map {A B : Type} (f : B -> exec rets) (g : A -> B)
      (items : list A) (acc : bytes) :
  concatLoop (fun x => f (g x)) items acc = concatLoop f (map g items) acc.
Proof.
  revert acc. induction items as [|x xs IH]; intros acc; simpl; [reflexivity|].
  destruct (f (g x)) as [[v [err|]]|]; try reflexivity. apply IH.
Qed.

(** ** The recursion of [InterpretString] *)

Section InterpretString_facts.

Import strings strings_facts.

Variable FileResolver : option (string -> rets).
Variable keccak256 : bytes -> rets.
Variable address : bytes -> rets.

#[local] Abbreviation IS_body := (InterpretString_body FileResolver keccak256 address).
#[local] Abbreviation IS_fuel := (InterpretString_fuel FileResolver keccak256 address).
#[local] Abbreviation IS := (InterpretString FileResolver keccak256 address).

Lemma concatLoop_ext {A : Type} (rec1 rec2 : A -> exec rets) (items : list A) :
  (forall p, In p items -> rec1 p = rec2 p) ->
  forall acc, concatLoop rec1 items acc = concatLoop rec2 items acc.
Proof.
  induction items as [|p ps IH]; intros H acc; simpl; [reflexivity|].
  rewrite (H p (or_introl eq_refl)).
  destruct (rec2 p) as [[eval [err|]]|]; try reflexivity.
  apply IH. intros q Hq. apply H. now right.
Qed.

(** The body calls [rec] on strictly shorter strings only. *)
Lemma InterpretString_body_ext (rec1 rec2 : string -> exec rets) (s : string) :
  (forall t, (String.length t < String.length s)%nat -> rec1 t = rec2 t) ->
  IS_body rec1 s = IS_body rec2 s.
Proof.
  intros H. unfold InterpretString_body.
  destruct (String.length s =? 0)%nat eqn:Hlen; [reflexivity|].
  apply Nat.eqb_neq in Hlen.
  destruct (HasPrefix s filePrefix); [reflexivity|].
  destruct (HasPrefix s keccak256Prefix) eqn:Hk.
  - rewrite H; [reflexivity|].
    rewrite slice_from_length. simpl. lia.
  - cbv zeta.
    destruct (1 <? List.length (Split s "|"))%nat eqn:Hn; [|reflexivity].
    apply Nat.ltb_lt in Hn.
    apply concatLoop_ext. intros p Hp. apply H.
    now apply Split_part_shorter with (sep := "|"%char).
Qed.

Lemma InterpretString_fuel_enough (n m : nat) (s : string) :
  (String.length s < n)%nat -> (String.length s < m)%nat ->
  IS_fuel n s = IS_fuel m s.
Proof.
  revert m s. induction n as [|n IH]; intros m s Hn Hm; [lia|].
  destruct m as [|m]; [lia|]. simpl.
  apply InterpretString_body_ext. intros t Ht. apply IH; lia.
Qed.

(** [InterpretString] satisfies the recursive equation of the source. *)
Lemma InterpretString_unfold (s : string) : IS s = IS_body IS s.
Proof.
  unfold InterpretString at 1. simpl.
  apply InterpretString_body_ext. intros t Ht.
  unfold InterpretString. apply InterpretString_fuel_enough; lia.
Qed.

(** ** Literals, file and hash references *)

(** C7: the empty string and "false" evaluate to the empty byte
    sequence, "true" to the single byte 0x01. *)
Theorem InterpretString_empty_false_true :
  InterpretString FileResolver keccak256 address "" = Returns ([], None) /\
  InterpretString FileResolver keccak256 address "false" = Returns ([], None) /\
  InterpretString FileResolver keccak256 address "true" = Returns ([x01], None).
Proof. repeat split; reflexivity. Qed.

(** C2: a string starting with "file:" fails with the missing-resolver
    error when no resolver is configured; otherwise the whole remainder,
    whatever it contains, goes to ResolveFileValue, whose bytes are the
    result and whose error is propagated. *)
Theorem InterpretString_file (rest : string) :
  IS (filePrefix ++ rest) =
  match FileResolver with
  | None => Returns ([], Some (errors_New "parser FileResolver not provided"))
  | Some ResolveFileValue =>
      match ResolveFileValue rest with
      | (_, Some err) => Returns ([], Some err)
      | (fileContents, None) => Returns (fileContents, None)
      end
  end.
Proof.
  rewrite InterpretString_unfold. unfold InterpretString_body.
  rewrite HasPrefix_append, slice_from_append. reflexivity.
Qed.


(** ** Concatenation *)

(** A string that is not taken by the file or keccak256 rule, or that has
    no separator, evaluates like the list of its parts. *)
Lemma InterpretString_parts (e : string) (b : bytes) :
  IS e = Returns (b, None) ->
  contains e "|" = false \/
  (HasPrefix e filePrefix = false /\ HasPrefix e keccak256Prefix = false) ->
  concatLoop IS (Split e "|") [] = Returns (b, None).
Proof.
  intros He Hshape.
  destruct (contains e "|") eqn:Hbar.
  - destruct Hshape as [|[Hf Hk]]; [discriminate|].
    rewrite InterpretString_unfold in He. unfold InterpretString_body in He.
    rewrite Hf, Hk in He.
    destruct e as [|c e]; [discriminate|]. simpl (String.length _ =? 0)%nat in He.
    cbv iota zeta in He.
    apply Split_with_sep in Hbar. apply Nat.ltb_lt in Hbar.
    now rewrite Hbar in He.
  - rewrite (Split_no_sep _ _ Hbar). simpl. now rewrite He.
Qed.

(** C1, as the code has it: for expressions e1 and e2 that both evaluate
    without error, where e1 does not start with "file:" or "keccak256:"
    and e2 does not both start with one of them and contain "|", the
    string e1|e2 evaluates to the bytes of e1 followed by the bytes of
    e2; under the same conditions the empty string is an identity on
    either side. *)
Theorem InterpretString_concatenation :
  (forall (e1 e2 : string) (b1 b2 : bytes),
      IS e1 = Returns (b1, None) -> IS e2 = Returns (b2, None) ->
      HasPrefix e1 filePrefix = false -> HasPrefix e1 keccak256Prefix = false ->
      contains e2 "|" = false \/
      (HasPrefix e2 filePrefix = false /\ HasPrefix e2 keccak256Prefix = false) ->
      IS (e1 ++ "|" ++ e2) = Returns (b1 ++ b2, None)) /\
  (forall (e : string) (b : bytes),
      IS e = Returns (b, None) ->
      HasPrefix e filePrefix = false -> HasPrefix e keccak256Prefix = false ->
      IS (e ++ "|" ++ "") = Returns (b, None)) /\
  (forall (e : string) (b : bytes),
      IS e = Returns (b, None) ->
      contains e "|" = false \/
      (HasPrefix e filePrefix = false /\ HasPrefix e keccak256Prefix = false) ->
      IS ("" ++ "|" ++ e) = Returns (b, None)).
Proof.
  assert (main : forall (e1 e2 : string) (b1 b2 : bytes),
      IS e1 = Returns (b1, None) -> IS e2 = Returns (b2, None) ->
      HasPrefix e1 filePrefix = false -> HasPrefix e1 keccak256Prefix = false ->
      contains e2 "|" = false \/
      (HasPrefix e2 filePrefix = false /\ HasPrefix e2 keccak256Prefix = false) ->
      IS (e1 ++ "|" ++ e2) = Returns (b1 ++ b2, None)).
  { intros e1 e2 b1 b2 H1 H2 Hf Hk Hshape.
    rewrite InterpretString_unfold. unfold InterpretString_body.
    change ("|" ++ e2)%string with (String "|" e2).
    unfold HasPrefix in *. rewrite !prefix_before_sep by reflexivity.
    rewrite Hf, Hk, Split_join, length_append.
    replace (_ =? 0)%nat with false by (symmetry; apply Nat.eqb_neq; simpl; lia).
    cbv zeta.
    replace (1 <? _)%nat with true.
    2:{ symmetry. apply Nat.ltb_lt. rewrite length_app.
        pose proof (Split_not_nil e1 "|"). pose proof (Split_not_nil e2 "|").
        destruct (Split e1 "|"), (Split e2 "|"); simpl; try congruence; lia. }
    rewrite (concatLoop_app IS _ _ [] b1).
    - rewrite concatLoop_acc.
      rewrite (InterpretString_parts e2 b2 H2 Hshape). reflexivity.
    - apply InterpretString_parts; [exact H1 | right; split; assumption]. }
  split; [exact main|]. split.
  - intros e b He Hf Hk.
    rewrite (main e "" b [] He eq_refl Hf Hk (or_introl eq_refl)).
    now rewrite app_nil_r.
  - intros e b He Hshape.
    apply (main "" e [] b eq_refl He eq_refl eq_refl Hshape).
Qed.

End InterpretString_facts.

(** C1 does not hold for a file reference on the left: with a resolver
    that knows the file "a", both "file:a" and "1" evaluate, but
    "file:a|1" asks the resolver for the file "a|1" and fails; likewise
    "file:a|" is not "file:a". *)
Lemma InterpretString_concatenation_file_counterexample :
  InterpretString (Some oneFileResolver) unavailable unavailable "file:a"
  = Returns ([x01], None) /\
  InterpretString (Some oneFileResolver) unavailable unavailable "1"
  = Returns ([x01], None) /\
  InterpretString (Some oneFileResolver) unavailable unavailable ("file:a" ++ "|" ++ "1")
  = Returns ([], Some (errors_New "file not found")) /\
  InterpretString (Some oneFileResolver) unavailable unavailable ("file:a" ++ "|" ++ "1")
  <> Returns ([x01] ++ [x01], None) /\
  InterpretString (Some oneFileResolver) unavailable unavailable ("file:a" ++ "|" ++ "")
  <> Returns ([x01], None).
Proof.
  repeat split; try reflexivity; vm_compute; discriminate.
Qed.

(** The concatenation property at "str:abc|u8:1". *)
Lemma InterpretString_concatenation_witness :
  InterpretString noResolver unavailable unavailable "str:abc"
  = Returns (list_byte_of_string "abc", None) /\
  InterpretString noResolver unavailable unavailable "u8:1"
  = Returns ([x01], None) /\
  InterpretString noResolver unavailable unavailable ("str:abc" ++ "|" ++ "u8:1")
  = Returns (list_byte_of_string "abc" ++ [x01], None).
Proof.
  split; [reflexivity|]. split; [reflexivity|].
  apply (proj1 (InterpretString_concatenation noResolver unavailable unavailable)
               "str:abc" "u8:1");
    [reflexivity | reflexivity | reflexivity | reflexivity | left; reflexivity].
Defined.

(** ** Tree evaluation *)

Section InterpretSubTree_facts.

Variable FileResolver : option (string -> rets).
Variable keccak256 : bytes -> rets.
Variable address : bytes -> rets.
Context {K : Type}.

#[local] Abbreviation IST := (@InterpretSubTree FileResolver keccak256 address K).

(** C6: a map evaluates to what the list of its values evaluates to,
    whatever the keys; the result is the concatenation of the values of
    the elements in order, and the first element error is returned
    alone. *)
Theorem InterpretSubTree_map_as_list (kvps : list (K * OJsonObject K)) :
  IST (OJsonMap kvps) = IST (OJsonList (map snd kvps)) /\
  (forall values : list bytes,
      Forall2 (fun item v => IST item = Returns (v, None)) (map snd kvps) values ->
      IST (OJsonMap kvps) = Returns (List.concat values, None)) /\
  (forall (pre post : list (OJsonObject K)) (item : OJsonObject K)
          (values : list bytes) (b : bytes) (err : error),
      map snd kvps = pre ++ item :: post ->
      Forall2 (fun item v => IST item = Returns (v, None)) pre values ->
      IST item = Returns (b, Some err) ->
      IST (OJsonMap kvps) = Returns ([], Some err)).
Proof.
  assert (E : IST (OJsonMap kvps) = IST (OJsonList (map snd kvps))).
  { simpl. apply (concatLoop_map IST snd). }
  split; [exact E|]. rewrite E. simpl. split.
  - intros values H. now rewrite (concatLoop_all_ok _ _ values).
  - intros pre post item values b err -> Hpre Hitem.
    now apply concatLoop_first_error with (values := values) (b := b).
Qed.

End InterpretSubTree_facts.

(** A map with two entries, evaluated as the list of its values. *)
Lemma InterpretSubTree_map_as_list_witness :
  InterpretSubTree noResolver unavailable unavailable
    (OJsonMap [("nonce"%string, OJsonString "1");
               ("code"%string, OJsonList [OJsonString "0x0203"; OJsonString "str:a"])])
  = Returns ([x01; x02; x03; x61], None).
Proof.
  apply (proj1 (proj2 (InterpretSubTree_map_as_list noResolver unavailable unavailable
           [("nonce"%string, OJsonString "1");
            ("code"%string, OJsonList [OJsonString "0x0203"; OJsonString "str:a"])]))
         [[x01]; [x02; x03; x61]]).
  repeat constructor.
Defined.

(** *** Routing inside InterpretString *)

Section routing.

Variable FileResolver : option (string -> rets).
Variable keccak256 : bytes -> rets.
Variable address : bytes -> rets.

#[local] Abbreviation IS := (InterpretString FileResolver keccak256 address).

Lemma InterpretString_literal_route (s : string) :
  s <> "" -> HasPrefix s filePrefix = false -> HasPrefix s keccak256Prefix = false ->
  contains s "|" = false ->
  IS s = InterpretString_literal address s.
Proof.
  intros Hne Hf Hk Hbar.
  rewrite InterpretString_unfold. unfold InterpretString_body.
  rewrite Hf, Hk, (Split_no_sep _ _ Hbar).
  destruct s; [congruence | reflexivity].
Qed.

#[local] Arguments interpretNumber : simpl never.
#[local] Arguments interpretUnsignedNumber : simpl never.
#[local] Arguments interpretUnsignedNumberFixedWidth : simpl never.

(** A string starting with a fixed-width prefix and free of separators
    goes to the rule of that prefix. *)
Lemma InterpretString_fixedWidth (p : string) (w : Z) (sg : bool) (rest : string) :
  In (p, w, sg) fixedWidthPrefixes -> contains rest "|" = false ->
  IS (p ++ rest) =
  fixedWidthResult (if sg then interpretNumber rest w
                    else Returns (interpretUnsignedNumberFixedWidth rest w)).
Proof.
  intros Hin Hbar. unfold fixedWidthPrefixes in Hin. simpl in Hin.
  repeat (destruct Hin as [Hin|Hin]; [inversion Hin; subst; clear Hin|]);
    try contradiction;
    (rewrite InterpretString_literal_route;
     [ unfold InterpretString_literal, tryInterpretFixedWidth, HasPrefix; cbn;
       rewrite prefix_nil; cbn;
       match goal with
       | |- context [interpretNumber ?r ?w] => destruct (interpretNumber r w) as [[? [?|]]|]
       | |- context [interpretUnsignedNumberFixedWidth ?r ?w] =>
           destruct (interpretUnsignedNumberFixedWidth r w) as [? [?|]]
       end; reflexivity
     | discriminate | reflexivity | reflexivity | exact Hbar ]).
Qed.

(** A string starting with "0" and free of separators is an unsigned
    number. *)
Lemma InterpretString_zero_led (t : string) :
  contains t "|" = false ->
  IS (String "0" t) = Returns (interpretUnsignedNumber (String "0" t)).
Proof.
  intros Hbar. rewrite InterpretString_literal_route;
    [reflexivity | discriminate | reflexivity | reflexivity | exact Hbar].
Qed.

End routing.


Lemma odd_succ_even (n : nat) :
  (n mod 2 =? 1)%nat = true -> (S n mod 2 =? 1)%nat = false.
Proof.
  rewrite Nat.eqb_eq, Nat.eqb_neq. intros H.
  pose proof (Nat.div_mod_eq n 2). pose proof (Nat.div_mod_eq (S n) 2).
  pose proof (Nat.mod_upper_bound (S n) 2 ltac:(lia)). lia.
Qed.

Lemma half_up_odd (n : nat) : (n mod 2 =? 1)%nat = true -> (S n / 2 = (n + 1) / 2)%nat.
Proof. intros _. now rewrite Nat.add_1_r. Qed.

Lemma half_up_even (n : nat) : (n mod 2 =? 1)%nat = false -> (n / 2 = (n + 1) / 2)%nat.
Proof.
  rewrite Nat.eqb_neq. intros H.
  pose proof (Nat.div_mod_eq n 2). pose proof (Nat.div_mod_eq (n + 1) 2).
  pose proof (Nat.mod_upper_bound n 2 ltac:(lia)).
  pose proof (Nat.mod_upper_bound (n + 1) 2 ltac:(lia)). lia.
Qed.

(** The padded digits of a hexadecimal literal decode to the bytes of
    its value, as many as there are digit pairs. *)
Lemma DecodeString_padded (ds : string) :
  allChars isHexDigit ds = true ->
  hex.DecodeString (padded ds) =
  (big.be_bytes ((String.length ds + 1) / 2) (hexValue ds), None).
Proof.
  intros Hds. unfold padded.
  destruct (String.length ds mod 2 =? 1)%nat eqn:Hodd.
  - destruct (DecodeString_digits (String "0" ds)) as (bs & E & Hl & Hv).
    + simpl. exact Hds.
    + apply odd_succ_even. exact Hodd.
    + rewrite E. f_equal.
      cbn [String.length] in Hl. rewrite half_up_odd in Hl by exact Hodd.
      rewrite <- Hl. rewrite <- (be_bytes_SetBytes bs) at 1. f_equal.
      unfold big.SetBytes. rewrite Hv. reflexivity.
  - destruct (DecodeString_digits ds Hds Hodd) as (bs & E & Hl & Hv).
    rewrite E. f_equal.
    rewrite half_up_even in Hl by exact Hodd.
    rewrite <- Hl. rewrite <- (be_bytes_SetBytes bs) at 1. f_equal.
    unfold big.SetBytes. rewrite Hv. reflexivity.
Qed.

Lemma hexValue_range (ds : string) :
  allChars isHexDigit ds = true ->
  0 <= hexValue ds < 256 ^ Z.of_nat ((String.length ds + 1) / 2).
Proof.
  intros Hds. pose proof (DecodeString_padded ds Hds) as H.
  unfold padded in H.
  assert (exists bs, List.length bs = ((String.length ds + 1) / 2)%nat /\
                     big.SetBytes bs = hexValue ds) as (bs & Hl & Hv).
  { destruct (String.length ds mod 2 =? 1)%nat eqn:Hodd.
    - destruct (DecodeString_digits (String "0" ds)) as (bs & E & Hl & Hv);
        [exact Hds | now apply odd_succ_even |].
      exists bs. cbn [String.length] in Hl. rewrite half_up_odd in Hl by exact Hodd.
      split; [exact Hl | apply Hv].
    - destruct (DecodeString_digits ds Hds Hodd) as (bs & E & Hl & Hv).
      exists bs. rewrite half_up_even in Hl by exact Hodd.
      split; [exact Hl | apply Hv]. }
  rewrite <- Hv, <- Hl. apply SetBytes_range.
Qed.

Lemma hex_digits_no_bar (ds : string) :
  allChars isHexDigit ds = true -> contains ds "|" = false.
Proof. intros H. eapply allChars_contains; [exact H | reflexivity]. Qed.

Section numbers.

Variable FileResolver : option (string -> rets).
Variable keccak256 : bytes -> rets.
Variable address : bytes -> rets.

#[local] Abbreviation IS := (InterpretString FileResolver keccak256 address).

(** ** Hexadecimal literals *)

(** C3, as the code has it: for a literal "0x" or "0X" followed by n
    hexadecimal digits, InterpretString returns the big-endian encoding
    of the denoted value on exactly ceil(n/2) bytes (the digits, with one
    zero nibble in front when n is odd, decoded two by two).  Leading
    zero bytes of the literal are kept: the result is the minimal
    encoding only when ceil(n/2) is the minimal length of the value. *)
Theorem InterpretString_hex (p ds : string) :
  p = "0x" \/ p = "0X" -> allChars isHexDigit ds = true ->
  let w := ((String.length ds + 1) / 2)%nat in
  IS (p ++ ds) = Returns (big.be_bytes w (hexValue ds), None) /\
  big.SetBytes (big.be_bytes w (hexValue ds)) = hexValue ds /\
  (big.byteLen (hexValue ds) <= w)%nat /\
  (big.be_bytes w (hexValue ds) = big.Bytes (hexValue ds)
   <-> w = big.byteLen (hexValue ds)).
Proof.
  intros Hp Hds w. pose proof (hexValue_range ds Hds) as Hr. fold w in Hr.
  split; [|split; [|split]].
  - assert (E : IS (p ++ ds) = Returns (interpretUnsignedNumber (p ++ ds))).
    { destruct Hp as [-> | ->]; apply InterpretString_zero_led; simpl;
        now apply hex_digits_no_bar. }
    rewrite E, interpretUnsignedNumber_hex by exact Hp.
    now rewrite DecodeString_padded.
  - rewrite SetBytes_be_bytes. now apply Z.mod_small.
  - apply byteLen_le_iff; lia.
  - unfold big.Bytes. rewrite Z.abs_eq by lia. split.
    + intros H. apply (f_equal (@List.length byte)) in H.
      now rewrite !length_be_bytes in H.
    + now intros <-.
Qed.

(** ** Fixed-width literals *)

#[local] Arguments interpretUnsignedNumber : simpl never.

Lemma width_positive (p : string) (w : Z) (sg : bool) :
  In (p, w, sg) fixedWidthPrefixes -> 0 < w.
Proof.
  unfold fixedWidthPrefixes. simpl.
  intros H. repeat (destruct H as [H|H]; [inversion H; lia|]). contradiction.
Qed.

Lemma interpretUnsignedNumberFixedWidth_ok (rest : string) (w : Z) (nb : bytes) :
  0 < w -> interpretUnsignedNumber rest = (nb, None) ->
  interpretUnsignedNumberFixedWidth rest w =
  if Z.of_nat (List.length nb) <=? w
  then (repeat x00 (Z.to_nat w - List.length nb) ++ nb, None)
  else ([], Some (fmt_Errorf ("representation of " ++ rest ++ " does not fit in "
                                ++ itoa w ++ " bytes")%string)).
Proof.
  intros Hw H. unfold interpretUnsignedNumberFixedWidth. rewrite H.
  replace (w =? 0) with false by (symmetry; apply Z.eqb_neq; lia).
  destruct (Z.of_nat (List.length nb) <=? w) eqn:E.
  - apply Z.leb_le in E. now rewrite gtb_false by exact E.
  - apply Z.leb_gt in E. now rewrite gtb_true by exact E.
Qed.

Lemma interpretNumber_unsigned (rest : string) (w : Z) :
  0 < w -> rest <> "" -> hasSign rest = false ->
  interpretNumber rest w = Returns (interpretUnsignedNumberFixedWidth rest w).
Proof.
  intros Hw Hne Hs. unfold interpretNumber. unfold hasSign in Hs.
  destruct rest as [|c rest]; [congruence|]. simpl in *. rewrite Hs.
  now replace (w =? 0) with false by (symmetry; apply Z.eqb_neq; lia).
Qed.

Lemma interpretNumber_signed (c : ascii) (body : string) (w : Z) (nb : bytes) :
  0 < w -> c = "-"%char \/ c = "+"%char ->
  interpretUnsignedNumber body = (nb, None) ->
  interpretNumber (String c body) w =
  Returns (twos.ToBytesOfLength
             (if Ascii.eqb c "-" then - big.SetBytes nb else big.SetBytes nb) w).
Proof.
  intros Hw Hc H. unfold interpretNumber. simpl.
  replace (Ascii.eqb c "-" || Ascii.eqb c "+") with true
    by (destruct Hc as [-> | ->]; reflexivity).
  rewrite H.
  now replace (w =? 0) with false by (symmetry; apply Z.eqb_neq; lia).
Qed.

(** C4, as the code has it: under a fixed-width prefix of width w, a
    remainder without sign is encoded unsigned, its bytes left-padded
    with zero bytes to w bytes, and the call fails with a does-not-fit
    error when they are more than w; this holds for the u prefixes and
    for the i prefixes alike.  Under an i prefix a remainder with a sign
    is encoded in two's complement on w bytes and fails when the value
    is outside the signed range of w bytes.  "u32:5" is 00 00 00 05,
    "i8:-1" is ff, "u8:256" fails. *)
Theorem InterpretString_fixed_width :
  (forall (p : string) (w : Z) (sg : bool) (rest : string) (nb : bytes),
      In (p, w, sg) fixedWidthPrefixes -> contains rest "|" = false ->
      sg = false \/ (rest <> "" /\ hasSign rest = false) ->
      interpretUnsignedNumber rest = (nb, None) ->
      IS (p ++ rest) =
      if Z.of_nat (List.length nb) <=? w
      then Returns (repeat x00 (Z.to_nat w - List.length nb) ++ nb, None)
      else Returns ([], Some (fmt_Errorf ("representation of " ++ rest ++ " does not fit in "
                                            ++ itoa w ++ " bytes")%string))) /\
  (forall (p : string) (w : Z) (c : ascii) (body : string) (nb : bytes),
      In (p, w, true) fixedWidthPrefixes -> contains body "|" = false ->
      c = "-"%char \/ c = "+"%char ->
      interpretUnsignedNumber body = (nb, None) ->
      let v := if Ascii.eqb c "-" then - big.SetBytes nb else big.SetBytes nb in
      IS (p ++ String c body) =
      if (- 2 ^ (8 * w - 1) <=? v) && (v <? 2 ^ (8 * w - 1))
      then Returns (big.be_bytes (Z.to_nat w) v, None)
      else Returns ([], Some twos_ErrDoesNotFit)) /\
  IS "u32:5" = Returns ([x00; x00; x00; x05], None) /\
  IS "i8:-1" = Returns ([xff], None) /\
  IS "u8:256" =
    Returns ([], Some (fmt_Errorf "representation of 256 does not fit in 1 bytes")).
Proof.
  split; [|split; [|repeat split; reflexivity]].
  - intros p w sg rest nb Hin Hbar Hshape H.
    pose proof (width_positive _ _ _ Hin) as Hw.
    rewrite (InterpretString_fixedWidth _ _ _ p w sg rest Hin Hbar).
    assert (E : (if sg then interpretNumber rest w
                 else Returns (interpretUnsignedNumberFixedWidth rest w))
                = Returns (interpretUnsignedNumberFixedWidth rest w)).
    { destruct sg; [|reflexivity].
      destruct Hshape as [|[Hne Hs]]; [discriminate|].
      now apply interpretNumber_unsigned. }
    rewrite E, (interpretUnsignedNumberFixedWidth_ok rest w nb Hw H).
    now destruct (Z.of_nat (List.length nb) <=? w).
  - intros p w c body nb Hin Hbar Hc H v.
    pose proof (width_positive _ _ _ Hin) as Hw.
    rewrite (InterpretString_fixedWidth _ _ _ p w true (String c body) Hin).
    2:{ simpl. rewrite Hbar. destruct Hc as [-> | ->]; reflexivity. }
    rewrite (interpretNumber_signed c body w nb Hw Hc H).
    fold v. rewrite ToBytesOfLength_spec by exact Hw.
    now destruct ((- 2 ^ (8 * w - 1) <=? v) && (v <? 2 ^ (8 * w - 1))).
Qed.

(** ** A minus sign under an unsigned prefix *)


(** ** Digit-grouping separators *)

Lemma decimalLead_route (c : ascii) (t : string) :
  In c decimalLead -> contains t "|" = false ->
  IS (String c t) = Returns (interpretUnsignedNumber (String c t)).
Proof.
  intros Hc Hbar. unfold decimalLead in Hc. simpl in Hc.
  repeat (destruct Hc as [<-|Hc];
          [rewrite InterpretString_literal_route;
           [reflexivity | discriminate | reflexivity | reflexivity | exact Hbar]|]).
  contradiction.
Qed.



(** ** Malformed numbers *)

(** C8 at a malformed hexadecimal literal: "0x12zz" returns the byte 12
    together with the decoder's invalid-byte error for "z", where the
    binary and base-10 rules return no bytes and an error naming the
    literal and the base. *)
Theorem InterpretString_malformed_hex :
  InterpretString FileResolver keccak256 address "0x12zz"
  = Returns ([x12], Some (hex_InvalidByteError "z")) /\
  InterpretString FileResolver keccak256 address "0b12"
  = Returns ([], Some (fmt_Errorf "could not parse binary value: 0b12")) /\
  InterpretString FileResolver keccak256 address "12zz"
  = Returns ([], Some (fmt_Errorf "could not parse base 10 value: 12zz")).
Proof. repeat split; reflexivity. Qed.

End numbers.

(** ** Instances *)

(** The hexadecimal theorem at "0x0005". *)
Lemma InterpretString_hex_witness :
  allChars isHexDigit "0005" = true /\
  InterpretString noResolver unavailable unavailable ("0x" ++ "0005")
  = Returns ([x00; x05], None).
Proof.
  split; [reflexivity|].
  exact (proj1 (InterpretString_hex noResolver unavailable unavailable "0x" "0005"
                  (or_introl eq_refl) eq_refl)).
Defined.

(** C3 fails at "0x0005": the value is 5, whose minimal encoding is the
    single byte 05, and the result has a leading zero byte. *)
Lemma InterpretString_hex_leading_zero_counterexample :
  InterpretString noResolver unavailable unavailable "0x0005"
  = Returns (x00 :: [x05], None) /\
  hexValue "0005" = 5 /\
  big.Bytes 5 = [x05] /\
  InterpretString noResolver unavailable unavailable "0x0005"
  <> Returns (big.Bytes (hexValue "0005"), None).
Proof.
  repeat split; try reflexivity. vm_compute. discriminate.
Qed.

(** The fixed-width theorem at "i8:128" (no sign) and "i8:-1" (sign). *)
Lemma InterpretString_fixed_width_witness :
  In (i8Prefix, 1, true) fixedWidthPrefixes /\
  interpretUnsignedNumber "128" = ([x80], None) /\
  interpretUnsignedNumber "1" = ([x01], None) /\
  InterpretString noResolver unavailable unavailable (i8Prefix ++ "128")
  = Returns ([x80], None) /\
  InterpretString noResolver unavailable unavailable (i8Prefix ++ String "-" "1")
  = Returns ([xff], None).
Proof.
  assert (Hin : In (i8Prefix, 1, true) fixedWidthPrefixes) by (simpl; tauto).
  split; [exact Hin|]. split; [reflexivity|]. split; [reflexivity|]. split.
  - apply (proj1 (InterpretString_fixed_width noResolver unavailable unavailable)
                 i8Prefix 1 true "128" [x80] Hin);
      [reflexivity | right; split; [discriminate | reflexivity] | reflexivity].
  - apply (proj1 (proj2 (InterpretString_fixed_width noResolver unavailable unavailable))
                 i8Prefix 1 "-"%char "1" [x01] Hin);
      [reflexivity | left; reflexivity | reflexivity].
Defined.

(** C4 fails at "i8:128": the call succeeds with the unsigned byte 80,
    although the minimal two's-complement representation of 128 takes two
    bytes and does not fit in one. *)
Lemma InterpretString_i8_unsigned_counterexample :
  InterpretString noResolver unavailable unavailable "i8:128"
  = Returns ([x80], None) /\
  twos.ToBytes 128 = [x00; x80] /\
  twos.ToBytesOfLength 128 1 = ([], Some twos_ErrDoesNotFit) /\
  InterpretString noResolver unavailable unavailable "i8:128"
  <> Returns ([], Some twos_ErrDoesNotFit).
Proof.
  repeat split; try reflexivity. vm_compute. discriminate.
Qed.



(** * Further properties of the interpreter *)

(** ** Further facts on strings *)

Lemma HasPrefix_split (s p : string) :
  HasPrefix s p = true -> s = (p ++ slice_from s (String.length p))%string.
Proof.
  unfold HasPrefix. revert s. induction p as [|c p IH]; intros s H.
  - reflexivity.
  - destruct s as [|a s]; simpl in H; [discriminate|].
    destruct (ascii_dec c a) as [->|]; [|discriminate].
    simpl. f_equal. now apply IH.
Qed.

Lemma append_assoc (a b c : string) : ((a ++ b) ++ c = a ++ (b ++ c))%string.
Proof. induction a as [|x a IH]; simpl; [reflexivity | now rewrite IH]. Qed.

Lemma append_nil_r (a : string) : (a ++ "")%string = a.
Proof. induction a as [|x a IH]; simpl; [reflexivity | now rewrite IH]. Qed.

Lemma contains_append (a b : string) (c : ascii) :
  contains (a ++ b) c = contains a c || contains b c.
Proof.
  induction a as [|x a IH]; simpl; [reflexivity|].
  now rewrite IH, orb_assoc.
Qed.

Lemma Split_none (s : string) (sep : ascii) :
  (1 <? List.length (Split s sep))%nat = false -> contains s sep = false.
Proof.
  intros H. destruct (contains s sep) eqn:E; [|reflexivity].
  apply Split_with_sep in E. apply Nat.ltb_ge in H. lia.
Qed.

(** Joining the parts of a split gives the string back. *)
Lemma Join_Split (s : string) (sep : ascii) : Join (Split s sep) sep = s.
Proof.
  induction s as [|c s IH]; [reflexivity|].
  simpl. pose proof (Split_not_nil s sep) as Hne.
  destruct (Ascii.eqb_spec c sep) as [->|Hc].
  - destruct (Split s sep) as [|p ps] eqn:E; [congruence|].
    change (Join ("" :: p :: ps) sep) with (String sep (Join (p :: ps) sep)).
    now rewrite IH.
  - destruct (Split s sep) as [|p ps] eqn:E; [congruence|].
    rewrite <- IH. destruct ps as [|q qs]; reflexivity.
Qed.

(** Splitting a join of separator-free parts gives the parts back. *)
Lemma Split_Join (parts : list string) (sep : ascii) :
  parts <> [] -> Forall (fun p => contains p sep = false) parts ->
  Split (Join parts sep) sep = parts.
Proof.
  intros Hne H. induction H as [|p ps Hp Hps IH]; [congruence|].
  destruct ps as [|q qs].
  - simpl. now apply Split_no_sep.
  - change (Join (p :: q :: qs) sep) with (p ++ String sep (Join (q :: qs) sep))%string.
    rewrite Split_join, (Split_no_sep _ _ Hp), IH by discriminate. reflexivity.
Qed.

(** Where a part sits in a join. *)
Lemma Join_position (l1 l2 : list string) (part : string) (sep : ascii) :
  exists a b, Join (l1 ++ part :: l2) sep = (a ++ part ++ b)%string /\
              (b = EmptyString \/ HasPrefix b (String sep EmptyString) = true).
Proof.
  induction l1 as [|x l1 (a & b & E & Hb)].
  - exists "". destruct l2 as [|y l2].
    + exists "". simpl. rewrite append_nil_r. auto.
    + exists (String sep (Join (y :: l2) sep)). split; [reflexivity|]. right.
      unfold HasPrefix. simpl. destruct (ascii_dec sep sep); [|congruence].
      apply prefix_nil.
  - exists (x ++ String sep a)%string, b. split; [|exact Hb].
    change ((x :: l1) ++ part :: l2) with (x :: (l1 ++ part :: l2)).
    destruct (l1 ++ part :: l2) as [|y ys] eqn:El.
    + destruct l1; discriminate.
    + change (Join (x :: y :: ys) sep) with (x ++ String sep (Join (y :: ys) sep))%string.
      rewrite E, append_assoc. reflexivity.
Qed.

(** Every part of a split lies in the string right before a separator or
    the end of the string. *)
Lemma Split_part_position (s : string) (sep : ascii) (part : string) :
  In part (Split s sep) ->
  exists a b, s = (a ++ part ++ b)%string /\
              (b = EmptyString \/ HasPrefix b (String sep EmptyString) = true).
Proof.
  intros Hin. apply in_split in Hin as (l1 & l2 & E).
  destruct (Join_position l1 l2 part sep) as (a & b & Hj & Hb).
  exists a, b. split; [|exact Hb].
  now rewrite <- Hj, <- E, Join_Split.
Qed.

(** ** Further facts on the accumulation loop *)

Lemma concatLoop_error_nil {A : Type} (eval : A -> exec rets) (items : list A)
      (acc bs : bytes) (err : error) :
  concatLoop eval items acc = Returns (bs, Some err) -> bs = [].
Proof.
  revert acc. induction items as [|x xs IH]; intros acc; simpl.
  - discriminate.
  - destruct (eval x) as [[v [e|]]|]; [congruence | apply IH | discriminate].
Qed.

Lemma concatLoop_no_panic {A : Type} (eval : A -> exec rets) (items : list A) :
  (forall x, In x items -> forall msg, eval x <> Panics msg) ->
  forall acc msg, concatLoop eval items acc <> Panics msg.
Proof.
  induction items as [|x xs IH]; intros H acc msg; simpl; [discriminate|].
  pose proof (H x (or_introl eq_refl)) as Hx.
  destruct (eval x) as [[v [e|]]|m]; [discriminate | | now elim (Hx m)].
  apply IH. intros y Hy. apply H. now right.
Qed.

(** The loop over [l1 ++ l2] is the loop over [l1] followed, when it
    succeeds, by the loop over [l2]. *)
Lemma concatLoop_app_full {A : Type} (eval : A -> exec rets) (l1 l2 : list A)
      (acc : bytes) :
  concatLoop eval (l1 ++ l2) acc =
  match concatLoop eval l1 acc with
  | Returns (b, None) => concatLoop eval l2 b
  | other => other
  end.
Proof.
  revert acc. induction l1 as [|x xs IH]; intros acc; simpl; [reflexivity|].
  destruct (eval x) as [[v [e|]]|]; [reflexivity | apply IH | reflexivity].
Qed.

Lemma Split_part_no_sep (s : string) (sep : ascii) (part : string) :
  In part (Split s sep) -> contains part sep = false.
Proof.
  revert part. induction s as [|c s IH]; intros part Hin; simpl in Hin.
  - destruct Hin as [<-|[]]. reflexivity.
  - destruct (Ascii.eqb c sep) eqn:Hc.
    + destruct Hin as [<-|Hin]; [reflexivity | now apply IH].
    + pose proof (Split_not_nil s sep) as Hne.
      destruct (Split s sep) as [|p ps]; [congruence|].
      destruct Hin as [<-|Hin].
      * simpl. rewrite Hc. apply IH. now left.
      * apply IH. now right.
Qed.

(** A two-character prefix whose second character fails the test is not a
    prefix of a string of characters that pass it. *)
Lemma HasPrefix_two_chars (test : ascii -> bool) (s : string) (a b : ascii) :
  allChars test s = true -> test b = false ->
  HasPrefix s (String a (String b "")) = false.
Proof.
  intros Hs Hb. unfold HasPrefix.
  destruct s as [|x [|y t]]; simpl; try reflexivity.
  - destruct (ascii_dec a x); reflexivity.
  - destruct (ascii_dec a x); [|reflexivity].
    destruct (ascii_dec b y) as [->|]; [|reflexivity].
    simpl in Hs. rewrite Hb, andb_false_l, andb_false_r in Hs. discriminate.
Qed.

(** [strRaw[0]] is the only place where the interpreter can panic. *)
Lemma interpretNumber_panics (r : string) (w : Z) (msg : string) :
  interpretNumber r w = Panics msg -> r = "".
Proof.
  unfold interpretNumber. destruct r as [|c r]; [reflexivity|]. simpl.
  destruct (Ascii.eqb c "-" || Ascii.eqb c "+").
  - destruct (interpretUnsignedNumber r) as [nb [e|]]; [discriminate|].
    destruct (w =? 0); discriminate.
  - destruct (w =? 0); discriminate.
Qed.

(** The twos model writes the number on as many bytes as it returns. *)
Lemma ToBytes_be_bytes (i : Z) :
  be_bytes (List.length (twos.ToBytes i)) i = twos.ToBytes i.
Proof.
  destruct (Z.eq_dec i 0) as [->|Hi]; [reflexivity|].
  assert (Hlen : (0 < List.length (twos.ToBytes i))%nat).
  { unfold twos.ToBytes. destruct (i <? 0) eqn:Hneg.
    - rewrite length_app, repeat_length, length_map.
      destruct (Bytes (i + 1)) as [|b tl]; simpl; lia.
    - rewrite (proj2 (Z.eqb_neq i 0) Hi).
      apply Z.ltb_ge in Hneg.
      destruct (Bytes_head i ltac:(lia)) as (b & tl & Hb & _). rewrite Hb.
      destruct (msb_set b); simpl; lia. }
  pose proof (ToBytesOfLength_spec i (Z.of_nat (List.length (twos.ToBytes i))) ltac:(lia)) as H.
  unfold twos.ToBytesOfLength in H. rewrite gtb_false in H by lia.
  rewrite Nat2Z.id, Nat.sub_diag in H. cbn [repeat app] in H.
  match type of H with
  | _ = (if ?c then _ else _) => destruct c; [|discriminate]
  end.
  injection H as H. symmetry. exact H.
Qed.

Section literal_rules.

Variable FileResolver : option (string -> rets).
Variable keccak256 : bytes -> rets.
Variable address : bytes -> rets.

#[local] Abbreviation IS := (InterpretString FileResolver keccak256 address).

#[local] Arguments interpretNumber : simpl never.
#[local] Arguments interpretUnsignedNumber : simpl never.
#[local] Arguments interpretUnsignedNumberFixedWidth : simpl never.

(** ** ASCII and address literals *)

(** X1: a string starting with "str:", two backquotes or two single
    quotes and holding no "|" evaluates to the bytes of the remainder,
    whatever the remainder looks like. *)
Theorem InterpretString_ascii_literal (p rest : string) :
  In p strPrefixes -> contains rest "|" = false ->
  InterpretString FileResolver keccak256 address (p ++ rest)
  = Returns (list_byte_of_string rest, None).
Proof.
  intros Hp Hbar. unfold strPrefixes in Hp. simpl in Hp.
  repeat (destruct Hp as [<-|Hp];
          [rewrite InterpretString_literal_route;
           [ unfold InterpretString_literal, HasPrefix; cbn;
             rewrite prefix_nil; reflexivity
           | discriminate | reflexivity | reflexivity | exact Hbar ]|]).
  contradiction.
Qed.

(** X2: a string starting with "address:" and holding no "|" is what the
    address function returns for the bytes of the remainder, bytes and
    error alike. *)
Theorem InterpretString_address_literal (rest : string) :
  contains rest "|" = false ->
  InterpretString FileResolver keccak256 address (addrPrefix ++ rest)
  = Returns (address (list_byte_of_string rest)).
Proof.
  intros Hbar.
  rewrite InterpretString_literal_route;
    [ unfold InterpretString_literal, HasPrefix; cbn; rewrite prefix_nil; reflexivity
    | discriminate | reflexivity | reflexivity | exact Hbar ].
Qed.

(** ** Signed numbers without a width *)

Lemma InterpretString_sign_route (c : ascii) (body : string) :
  c = "-"%char \/ c = "+"%char -> contains body "|" = false ->
  IS (String c body) = interpretNumber (String c body) 0.
Proof.
  intros Hc Hbar.
  destruct Hc as [-> | ->];
    (rewrite InterpretString_literal_route;
     [reflexivity | discriminate | reflexivity | reflexivity | exact Hbar]).
Qed.

(** X3: a sign followed by decimal digits evaluates to the two's
    complement bytes of the signed value, as many bytes as twos.ToBytes
    returns; and when the text after a sign does not parse, the error
    comes back without bytes. *)
Theorem InterpretString_signed_number (c : ascii) :
  c = "-"%char \/ c = "+"%char ->
  (forall ds : string,
      ds <> "" -> allChars isDecimalDigit ds = true ->
      let v := if Ascii.eqb c "-" then - decimalValue ds else decimalValue ds in
      InterpretString FileResolver keccak256 address (String c ds)
      = Returns (twos.ToBytes v, None) /\
      big.be_bytes (List.length (twos.ToBytes v)) v = twos.ToBytes v) /\
  (forall (body : string) (nb : bytes) (err : error),
      contains body "|" = false ->
      interpretUnsignedNumber body = (nb, Some err) ->
      InterpretString FileResolver keccak256 address (String c body)
      = Returns ([], Some err)).
Proof.
  intros Hc. split.
  - intros ds Hne Hds v. split; [|apply ToBytes_be_bytes].
    assert (Hbar : contains ds "|" = false)
      by (eapply allChars_contains; [exact Hds | reflexivity]).
    rewrite (InterpretString_sign_route c ds Hc Hbar).
    unfold interpretNumber. simpl.
    replace (Ascii.eqb c "-" || Ascii.eqb c "+") with true
      by (destruct Hc as [-> | ->]; reflexivity).
    assert (Hparse : interpretUnsignedNumber ds = (Bytes (decimalValue ds), None)).
    { destruct ds as [|d t]; [congruence|].
      assert (Hd : isDecimalDigit d = true)
        by (simpl in Hds; now apply andb_true_iff in Hds as [Hd _]).
      rewrite interpretUnsignedNumber_decimal
        by (apply (HasPrefix_two_chars isDecimalDigit); [exact Hds | reflexivity]).
      rewrite (stripSeparators_digits isDecimalDigit) by (reflexivity || exact Hds).
      destruct (SetString_decimal (String d t) Hne Hds) as (Hs & _).
      now rewrite Hs. }
    rewrite Hparse. rewrite SetBytes_Bytes.
    rewrite Z.abs_eq by (now apply decimalValue_nonneg).
    reflexivity.
  - intros body nb err Hbar H.
    rewrite (InterpretString_sign_route c body Hc Hbar).
    unfold interpretNumber. simpl.
    replace (Ascii.eqb c "-" || Ascii.eqb c "+") with true
      by (destruct Hc as [-> | ->]; reflexivity).
    now rewrite H.
Qed.

(** ** Panics *)

Lemma InterpretString_literal_panics (s msg : string) :
  InterpretString_literal address s = Panics msg -> s <> "" -> In s signedPrefixes.
Proof.
  unfold InterpretString_literal.
  destruct (s =? "false")%string; [discriminate|].
  destruct (s =? "true")%string; [discriminate|].
  destruct (find (HasPrefix s) strPrefixes); [discriminate|].
  destruct (HasPrefix s addrPrefix); [discriminate|].
  unfold tryInterpretFixedWidth.
  destruct (HasPrefix s u64Prefix);
    [simpl; destruct (interpretUnsignedNumberFixedWidth _ 8) as [? [?|]]; discriminate|].
  destruct (HasPrefix s u32Prefix);
    [simpl; destruct (interpretUnsignedNumberFixedWidth _ 4) as [? [?|]]; discriminate|].
  destruct (HasPrefix s u16Prefix);
    [simpl; destruct (interpretUnsignedNumberFixedWidth _ 2) as [? [?|]]; discriminate|].
  destruct (HasPrefix s u8Prefix);
    [simpl; destruct (interpretUnsignedNumberFixedWidth _ 1) as [? [?|]]; discriminate|].
  destruct (HasPrefix s i64Prefix) eqn:H8;
    [destruct (interpretNumber _ 8) as [[? [?|]]|m] eqn:E; simpl; try discriminate;
     intros _ _; apply interpretNumber_panics in E; apply HasPrefix_split in H8;
     rewrite E in H8; subst s; simpl; tauto|].
  destruct (HasPrefix s i32Prefix) eqn:H4;
    [destruct (interpretNumber _ 4) as [[? [?|]]|m] eqn:E; simpl; try discriminate;
     intros _ _; apply interpretNumber_panics in E; apply HasPrefix_split in H4;
     rewrite E in H4; subst s; simpl; tauto|].
  destruct (HasPrefix s i16Prefix) eqn:H2;
    [destruct (interpretNumber _ 2) as [[? [?|]]|m] eqn:E; simpl; try discriminate;
     intros _ _; apply interpretNumber_panics in E; apply HasPrefix_split in H2;
     rewrite E in H2; subst s; simpl; tauto|].
  destruct (HasPrefix s i8Prefix) eqn:H1;
    [destruct (interpretNumber _ 1) as [[? [?|]]|m] eqn:E; simpl; try discriminate;
     intros _ _; apply interpretNumber_panics in E; apply HasPrefix_split in H1;
     rewrite E in H1; subst s; simpl; tauto|].
  intros H Hne. apply interpretNumber_panics in H. congruence.
Qed.


(** InterpretString does not panic on a string in which no signed
    fixed-width prefix ends the string or stands right before a "|". *)
Lemma InterpretString_no_panic (s : string) :
  ~ danglingSigned s ->
  forall msg, InterpretString FileResolver keccak256 address s <> Panics msg.
Proof.
  remember (S (String.length s)) as n eqn:Hn.
  assert (Hlt : (String.length s < n)%nat) by lia. clear Hn.
  revert s Hlt. induction n as [|n IH]; intros s Hlt Hs msg; [lia|].
  rewrite InterpretString_unfold. unfold InterpretString_body.
  destruct (String.length s =? 0)%nat eqn:Hlen; [discriminate|].
  apply Nat.eqb_neq in Hlen.
  destruct (HasPrefix s filePrefix).
  { destruct FileResolver as [r|]; [|discriminate].
    destruct (r _) as [fc [e|]]; discriminate. }
  destruct (HasPrefix s keccak256Prefix) eqn:Hk.
  { apply HasPrefix_split in Hk.
    set (rest := slice_from s (String.length keccak256Prefix)) in *.
    assert (Hrest : forall m, IS rest <> Panics m).
    { apply IH.
      - rewrite Hk, length_append in Hlt. simpl in Hlt. lia.
      - intros (pre & p & post & Hp & E & Hpost). apply Hs.
        exists (keccak256Prefix ++ pre)%string, p, post.
        split; [exact Hp|]. split; [|exact Hpost].
        now rewrite Hk, E, append_assoc. }
    destruct (IS rest) as [[arg [e|]]|m]; [discriminate | | now elim (Hrest m)].
    destruct (keccak256 arg) as [h [e|]]; discriminate. }
  cbv zeta.
  destruct (1 <? List.length (Split s "|"))%nat eqn:Hparts.
  - apply Nat.ltb_lt in Hparts.
    apply concatLoop_no_panic. intros part Hin m.
    apply IH.
    + pose proof (Split_part_shorter s "|" part Hparts Hin). lia.
    + intros (pre & p & post & Hp & E & Hpost). apply Hs.
      pose proof (Split_part_no_sep s "|" part Hin) as Hnb.
      destruct (Split_part_position s "|" part Hin) as (a & b & Es & Hb).
      assert (post = "").
      { destruct Hpost as [|Hpost]; [assumption|]. exfalso.
        apply HasPrefix_split in Hpost. simpl in Hpost.
        rewrite E, Hpost, !contains_append in Hnb. simpl in Hnb.
        rewrite !orb_true_r in Hnb. discriminate. }
      subst post. exists (a ++ pre)%string, p, b.
      split; [exact Hp|]. split; [|exact Hb].
      rewrite Es, E, append_nil_r, !append_assoc. reflexivity.
  - intros H. apply InterpretString_literal_panics in H.
    + apply Hs. exists "", s, "". split; [exact H|]. split; [|now left].
      simpl. now rewrite append_nil_r.
    + destruct s; [simpl in Hlen; congruence | discriminate].
Qed.

(** ** Bytes next to an error *)

(** X6: InterpretString returns bytes together with an error in two
    cases only: an address literal, when the address function does so,
    and a hexadecimal literal at the top of the string, where the bytes
    and the error are the decoder's. *)
Theorem InterpretString_bytes_with_error (s : string) (bs : bytes) (err : error) :
  InterpretString FileResolver keccak256 address s = Returns (bs, Some err) ->
  bs <> [] ->
  (HasPrefix s addrPrefix = true /\
   address (list_byte_of_string (slice_from s (String.length addrPrefix))) = (bs, Some err))
  \/
  ((HasPrefix s "0x" = true \/ HasPrefix s "0X" = true) /\
   hex.DecodeString (padded (slice_from s 2)) = (bs, Some err)).
Proof.
  intros H Hbs.
  assert (Hnil : forall e, Returns (@nil byte, Some e) = Returns (bs, Some err) -> False)
    by (intros e [= <- _]; congruence).
  rewrite InterpretString_unfold in H. unfold InterpretString_body in H.
  destruct (String.length s =? 0)%nat; [discriminate|].
  destruct (HasPrefix s filePrefix).
  { destruct FileResolver as [r|]; [|now elim (Hnil _ H)].
    destruct (r _) as [fc [e|]]; [now elim (Hnil _ H) | discriminate]. }
  destruct (HasPrefix s keccak256Prefix).
  { destruct (IS _) as [[arg [e|]]|m]; [now elim (Hnil _ H) | | discriminate].
    destruct (keccak256 arg) as [h [e|]]; [now elim (Hnil _ H) | discriminate]. }
  cbv zeta in H.
  destruct (1 <? List.length (Split s "|"))%nat.
  { apply concatLoop_error_nil in H. congruence. }
  unfold InterpretString_literal in H.
  destruct (s =? "false")%string; [discriminate|].
  destruct (s =? "true")%string; [discriminate|].
  destruct (find (HasPrefix s) strPrefixes); [discriminate|].
  destruct (HasPrefix s addrPrefix) eqn:Haddr.
  { left. split; [reflexivity|]. now injection H. }
  right.
  destruct (tryInterpretFixedWidth s) as [[[|] [r [e|]]]|m];
    try (now elim (Hnil _ H)); try discriminate.
  unfold interpretNumber in H.
  destruct (String.get 0 s) as [c0|]; [|discriminate].
  destruct (Ascii.eqb c0 "-" || Ascii.eqb c0 "+").
  { destruct (interpretUnsignedNumber _) as [nb [e|]]; [now elim (Hnil _ H)|].
    simpl in H. discriminate. }
  simpl in H. injection H as H. unfold interpretUnsignedNumber in H.
  destruct (HasPrefix s "0x" || HasPrefix s "0X") eqn:Hx.
  - apply orb_true_iff in Hx. split; [exact Hx | exact H].
  - destruct (HasPrefix s "0b" || HasPrefix s "0B").
    + destruct (big.SetString _ 2); [discriminate | injection H as Hb _; congruence].
    + destruct (big.SetString _ 10); [discriminate | injection H as Hb _; congruence].
Qed.

(** ** The width of fixed-width results *)

(** X7: a fixed-width literal without "|" that evaluates without error
    evaluates to exactly as many bytes as its prefix says. *)
Theorem InterpretString_fixed_width_length (p : string) (w : Z) (sg : bool)
        (rest : string) (bs : bytes) :
  In (p, w, sg) fixedWidthPrefixes -> contains rest "|" = false ->
  InterpretString FileResolver keccak256 address (p ++ rest) = Returns (bs, None) ->
  Z.of_nat (List.length bs) = w.
Proof.
  intros Hin Hbar H.
  pose proof (width_positive _ _ _ Hin) as Hw.
  rewrite (InterpretString_fixedWidth _ _ _ p w sg rest Hin Hbar) in H.
  assert (Hu : forall r, interpretUnsignedNumberFixedWidth r w = (bs, None) ->
                         Z.of_nat (List.length bs) = w).
  { intros r Hr. unfold interpretUnsignedNumberFixedWidth in Hr.
    destruct (interpretUnsignedNumber r) as [nb [e|]]; [discriminate|].
    replace (w =? 0) with false in Hr by (symmetry; apply Z.eqb_neq; lia).
    destruct (Z.of_nat (List.length nb) >? w) eqn:Hgt; [discriminate|].
    injection Hr as <-. unfold twos.CopyAlignRight.
    rewrite Z.gtb_ltb in Hgt. apply Z.ltb_ge in Hgt.
    rewrite length_app, repeat_length. lia. }
  destruct sg.
  - unfold interpretNumber in H.
    destruct (String.get 0 rest) as [c0|]; [|discriminate].
    destruct (Ascii.eqb c0 "-" || Ascii.eqb c0 "+").
    + destruct (interpretUnsignedNumber _) as [nb [e|]]; [discriminate|].
      replace (w =? 0) with false in H by (symmetry; apply Z.eqb_neq; lia).
      cbv zeta in H.
      rewrite ToBytesOfLength_spec in H by exact Hw.
      destruct (_ && _); [|discriminate].
      simpl in H. injection H as <-. rewrite length_be_bytes. lia.
    + replace (w =? 0) with false in H by (symmetry; apply Z.eqb_neq; lia).
      destruct (interpretUnsignedNumberFixedWidth rest w) as [r [e|]] eqn:E;
        [discriminate|].
      simpl in H. injection H as <-. now apply (Hu rest).
  - destruct (interpretUnsignedNumberFixedWidth rest w) as [r [e|]] eqn:E;
      [discriminate|].
    simpl in H. injection H as <-. now apply (Hu rest).
Qed.

End literal_rules.

(** ** Further facts on digits and separators *)

Lemma stripSeparators_cons (c : ascii) (t : string) :
  stripSeparators (String c t) =
  if Ascii.eqb c "_" || Ascii.eqb c "," then stripSeparators t
  else String c (stripSeparators t).
Proof.
  unfold stripSeparators. simpl.
  destruct (Ascii.eqb c "_"); [reflexivity|]. simpl.
  destruct (Ascii.eqb c ","); reflexivity.
Qed.

(** When the text without separators consists of digits, the text
    consists of digits and separators. *)
Lemma allChars_stripSeparators (test : ascii -> bool) (t : string) :
  allChars test (stripSeparators t) = true ->
  allChars (fun c => test c || Ascii.eqb c "_" || Ascii.eqb c ",") t = true.
Proof.
  induction t as [|c t IH]; [reflexivity|].
  rewrite stripSeparators_cons. simpl.
  destruct (Ascii.eqb c "_") eqn:E1; simpl.
  - intros H. rewrite orb_true_r. simpl. now apply IH.
  - destruct (Ascii.eqb c ",") eqn:E2; simpl.
    + intros H. rewrite orb_true_r. now apply IH.
    + intros H. apply andb_true_iff in H as [Hc Ht].
      rewrite Hc. simpl. now apply IH.
Qed.

Lemma allChars_weaken (test1 test2 : ascii -> bool) (s : string) :
  (forall c, test1 c = true -> test2 c = true) ->
  allChars test1 s = true -> allChars test2 s = true.
Proof.
  intros Hw. induction s as [|c s IH]; simpl; [reflexivity|].
  intros H. apply andb_true_iff in H as [Hc Hs].
  now rewrite (Hw c Hc), IH.
Qed.

Lemma binary_is_decimal (c : ascii) : isBinaryDigit c = true -> isDecimalDigit c = true.
Proof.
  unfold isBinaryDigit, isDecimalDigit. rewrite !in_range_spec. cbn. lia.
Qed.

Lemma isDecimalText_lead (c : ascii) : isDecimalText c = true -> In c decimalLead.
Proof.
  destruct c as [[] [] [] [] [] [] [] []]; intros H;
    try (vm_compute in H; discriminate H); simpl; tauto.
Qed.

Lemma scanDigits_binary (s : string) (acc : Z) :
  allChars isBinaryDigit s = true ->
  big.scanDigits 2 s acc =
  Some (digitsValue 2 (fun c => Z.of_N (N_of_ascii c) - 48) s acc).
Proof.
  revert acc. induction s as [|c s IH]; intros acc H; simpl in *; [reflexivity|].
  apply andb_true_iff in H as [Hc Hs].
  unfold big.digitVal.
  pose proof (binary_is_decimal c Hc) as H9. unfold isDecimalDigit in H9.
  rewrite H9. unfold isBinaryDigit in Hc. apply in_range_spec in Hc. cbn in Hc.
  destruct (Z.of_N (N_of_ascii c) - 48 >=? 2) eqn:E; [lia|].
  apply IH. exact Hs.
Qed.

Lemma SetString_binary (s : string) :
  s <> "" -> allChars isBinaryDigit s = true ->
  big.SetString s 2 = Some (binaryValue s).
Proof.
  intros Hne Hs. pose proof (scanDigits_binary s 0 Hs) as Hscan.
  destruct s as [|c s]; [congruence|].
  assert (Hc : Ascii.eqb c "-" || Ascii.eqb c "+" = false).
  { simpl in Hs. apply andb_true_iff in Hs as [Hc _].
    unfold isBinaryDigit in Hc. apply in_range_spec in Hc. cbn in Hc.
    apply orb_false_iff; split; apply Ascii.eqb_neq; intros ->; cbn in Hc; lia. }
  unfold big.SetString.
  apply orb_false_iff in Hc as Hc'. destruct Hc' as [Hm Hp].
  rewrite Hc, Hm. rewrite Hscan. reflexivity.
Qed.

(** ** Facts on hexadecimal text *)

Lemma hextable_digits (v : byte) :
  hex.fromHexChar (hextable_at (Z_of_byte v / 16)) = Some (Z_of_byte v / 16) /\
  hex.fromHexChar (hextable_at (Z_of_byte v mod 16)) = Some (Z_of_byte v mod 16) /\
  byte_of_Z (Z_of_byte v / 16 * 16 + Z_of_byte v mod 16) = v.
Proof. destruct v; vm_compute; auto. Qed.

Lemma DecodeString_EncodeToString (bs : bytes) :
  hex.DecodeString (hex_EncodeToString bs) = (bs, None).
Proof.
  induction bs as [|v bs IH]; [reflexivity|].
  destruct (hextable_digits v) as (Hh & Hl & Hv).
  cbn [hex_EncodeToString hex.DecodeString]. now rewrite Hh, Hl, IH, Hv.
Qed.

Lemma EncodeToString_even (bs : bytes) :
  (String.length (hex_EncodeToString bs) mod 2 =? 1)%nat = false.
Proof.
  induction bs as [|v bs IH]; [reflexivity|].
  cbn [hex_EncodeToString String.length]. now rewrite length_pair_mod.
Qed.

Lemma EncodeToString_digits (bs : bytes) :
  allChars isHexDigit (hex_EncodeToString bs) = true.
Proof.
  induction bs as [|v bs IH]; [reflexivity|].
  destruct (hextable_digits v) as (Hh & Hl & _).
  cbn [hex_EncodeToString allChars]. unfold isHexDigit at 1 2.
  now rewrite Hh, Hl, IH.
Qed.

Section number_values.

Variable FileResolver : option (string -> rets).
Variable keccak256 : bytes -> rets.
Variable address : bytes -> rets.

#[local] Abbreviation IS := (InterpretString FileResolver keccak256 address).

#[local] Arguments interpretUnsignedNumber : simpl never.

(** ** Base-10 and binary literals *)

(** X8: a base-10 literal, with "_" and "," anywhere in it, evaluates to
    the shortest big-endian encoding of the number its digits write:
    reading the bytes back gives the number, and no byte sequence with
    that value is shorter. *)
Theorem InterpretString_decimal (t ds : string) :
  stripSeparators t = ds -> ds <> "" -> allChars isDecimalDigit ds = true ->
  InterpretString FileResolver keccak256 address t
  = Returns (big.Bytes (decimalValue ds), None) /\
  big.SetBytes (big.Bytes (decimalValue ds)) = decimalValue ds /\
  (forall bs : bytes,
      big.SetBytes bs = decimalValue ds ->
      (List.length (big.Bytes (decimalValue ds)) <= List.length bs)%nat).
Proof.
  intros Hstrip Hne Hds.
  pose proof (decimalValue_nonneg ds Hds) as Hv.
  split; [|split].
  - assert (Ht : allChars isDecimalText t = true).
    { apply (allChars_stripSeparators isDecimalDigit). now rewrite Hstrip. }
    destruct t as [|c t']; [now subst ds|].
    assert (Hc : In c decimalLead).
    { apply isDecimalText_lead. simpl in Ht. now apply andb_true_iff in Ht as [Hc _]. }
    assert (Hbar : contains t' "|" = false).
    { simpl in Ht. apply andb_true_iff in Ht as [_ Ht].
      eapply allChars_contains; [exact Ht | reflexivity]. }
    rewrite (decimalLead_route _ _ _ c t' Hc Hbar).
    rewrite interpretUnsignedNumber_decimal
      by (apply (HasPrefix_two_chars isDecimalText); [exact Ht | reflexivity]).
    rewrite Hstrip.
    destruct (SetString_decimal ds Hne Hds) as (Hs & _). now rewrite Hs.
  - rewrite SetBytes_Bytes. now apply Z.abs_eq.
  - intros bs Hbs. rewrite length_Bytes, Z.abs_eq by exact Hv.
    apply byteLen_le_iff; [exact Hv|].
    rewrite <- Hbs. apply SetBytes_range.
Qed.

(** X9: a literal "0b" or "0B" followed by binary digits, with "_" and
    "," anywhere among them, evaluates to the shortest big-endian
    encoding of the number the digits write. *)
Theorem InterpretString_binary (p t bits : string) :
  p = "0b" \/ p = "0B" ->
  stripSeparators t = bits -> bits <> "" -> allChars isBinaryDigit bits = true ->
  InterpretString FileResolver keccak256 address (p ++ t)
  = Returns (big.Bytes (binaryValue bits), None) /\
  big.SetBytes (big.Bytes (binaryValue bits)) = binaryValue bits.
Proof.
  intros Hp Hstrip Hne Hbits.
  assert (Hv : 0 <= binaryValue bits).
  { apply digitsValue_decimal_nonneg; [lia | | lia].
    eapply allChars_weaken; [apply binary_is_decimal | exact Hbits]. }
  split.
  - assert (Ht : allChars isBinaryText t = true).
    { apply (allChars_stripSeparators isBinaryDigit). now rewrite Hstrip. }
    assert (Hbar : contains t "|" = false)
      by (eapply allChars_contains; [exact Ht | reflexivity]).
    assert (E : IS (p ++ t) = Returns (interpretUnsignedNumber (p ++ t))).
    { destruct Hp as [-> | ->]; apply InterpretString_zero_led; simpl; exact Hbar. }
    rewrite E, interpretUnsignedNumber_binary by exact Hp.
    rewrite Hstrip, (SetString_binary bits Hne Hbits). reflexivity.
  - rewrite SetBytes_Bytes. now apply Z.abs_eq.
Qed.

(** ** Hexadecimal round trip *)

(** X10: every byte sequence is the value of its own hexadecimal text:
    "0x" or "0X" followed by hex.EncodeToString of the bytes evaluates to
    the bytes. *)
Theorem InterpretString_hex_roundtrip (bs : bytes) :
  InterpretString FileResolver keccak256 address ("0x" ++ hex_EncodeToString bs)
  = Returns (bs, None) /\
  InterpretString FileResolver keccak256 address ("0X" ++ hex_EncodeToString bs)
  = Returns (bs, None).
Proof.
  assert (Hbar : contains (hex_EncodeToString bs) "|" = false).
  { eapply allChars_contains; [apply EncodeToString_digits | reflexivity]. }
  assert (Hpad : padded (hex_EncodeToString bs) = hex_EncodeToString bs).
  { unfold padded. now rewrite EncodeToString_even. }
  split.
  - change ("0x" ++ hex_EncodeToString bs)%string
      with (String "0" (String "x" (hex_EncodeToString bs))).
    rewrite InterpretString_zero_led by (simpl; exact Hbar).
    change (String "0" (String "x" (hex_EncodeToString bs)))
      with ("0x" ++ hex_EncodeToString bs)%string.
    rewrite interpretUnsignedNumber_hex by (now left).
    now rewrite Hpad, DecodeString_EncodeToString.
  - change ("0X" ++ hex_EncodeToString bs)%string
      with (String "0" (String "X" (hex_EncodeToString bs))).
    rewrite InterpretString_zero_led by (simpl; exact Hbar).
    change (String "0" (String "X" (hex_EncodeToString bs)))
      with ("0X" ++ hex_EncodeToString bs)%string.
    rewrite interpretUnsignedNumber_hex by (now right).
    now rewrite Hpad, DecodeString_EncodeToString.
Qed.

(** ** Fixed-width round trip *)

(** X11: under any fixed-width prefix of width w, decimal digits without
    a sign evaluate to the w-byte big-endian encoding of their number n
    when n < 256^w, and reading the bytes back gives n; when n >= 256^w
    the call returns the does-not-fit error and no bytes. *)
Theorem InterpretString_fixed_width_decimal (p : string) (w : Z) (sg : bool)
        (ds : string) :
  In (p, w, sg) fixedWidthPrefixes ->
  ds <> "" -> allChars isDecimalDigit ds = true ->
  (decimalValue ds < 256 ^ w ->
   InterpretString FileResolver keccak256 address (p ++ ds)
   = Returns (big.be_bytes (Z.to_nat w) (decimalValue ds), None) /\
   big.SetBytes (big.be_bytes (Z.to_nat w) (decimalValue ds)) = decimalValue ds) /\
  (256 ^ w <= decimalValue ds ->
   InterpretString FileResolver keccak256 address (p ++ ds)
   = Returns ([], Some (fmt_Errorf ("representation of " ++ ds ++ " does not fit in "
                                      ++ itoa w ++ " bytes")%string))).
Proof.
  intros Hin Hne Hds.
  pose proof (width_positive _ _ _ Hin) as Hw.
  pose proof (decimalValue_nonneg ds Hds) as Hv.
  assert (Hbar : contains ds "|" = false)
    by (eapply allChars_contains; [exact Hds | reflexivity]).
  assert (Hparse : interpretUnsignedNumber ds = (Bytes (decimalValue ds), None)).
  { rewrite interpretUnsignedNumber_decimal
      by (apply (HasPrefix_two_chars isDecimalDigit); [exact Hds | reflexivity]).
    rewrite (stripSeparators_digits isDecimalDigit) by (reflexivity || exact Hds).
    destruct (SetString_decimal ds Hne Hds) as (Hs & _). now rewrite Hs. }
  assert (Hsign : hasSign ds = false).
  { destruct ds as [|c t]; [reflexivity|]. unfold hasSign. simpl.
    simpl in Hds. apply andb_true_iff in Hds as [Hc _].
    unfold isDecimalDigit in Hc. apply in_range_spec in Hc. cbn in Hc.
    apply orb_false_iff; split; apply Ascii.eqb_neq; intros ->; cbn in Hc; lia. }
  assert (E : IS (p ++ ds) =
              if Z.of_nat (byteLen (decimalValue ds)) <=? w
              then Returns (repeat x00 (Z.to_nat w - byteLen (decimalValue ds))
                              ++ Bytes (decimalValue ds), None)
              else Returns ([], Some (fmt_Errorf ("representation of " ++ ds
                              ++ " does not fit in " ++ itoa w ++ " bytes")%string))).
  { rewrite (InterpretString_fixedWidth _ _ _ p w sg ds Hin Hbar).
    assert (E' : (if sg then interpretNumber ds w
                  else Returns (interpretUnsignedNumberFixedWidth ds w))
                 = Returns (interpretUnsignedNumberFixedWidth ds w)).
    { destruct sg; [|reflexivity]. now apply interpretNumber_unsigned. }
    rewrite E', (interpretUnsignedNumberFixedWidth_ok _ w _ Hw Hparse).
    rewrite length_Bytes, Z.abs_eq by exact Hv.
    now destruct (Z.of_nat (byteLen (decimalValue ds)) <=? w). }
  assert (Hfit : (byteLen (decimalValue ds) <= Z.to_nat w)%nat
                 <-> decimalValue ds < 256 ^ w).
  { rewrite byteLen_le_iff by exact Hv. now rewrite Z2Nat.id by lia. }
  split.
  - intros Hlt. split.
    + rewrite E. apply Hfit in Hlt.
      replace (Z.of_nat (byteLen (decimalValue ds)) <=? w) with true
        by (symmetry; apply Z.leb_le; lia).
      f_equal. f_equal. unfold Bytes. rewrite Z.abs_eq by exact Hv.
      apply pad_to; [|lia].
      split; [exact Hv | apply byteLen_upper; exact Hv].
    + rewrite SetBytes_be_bytes. apply Z.mod_small.
      rewrite Z2Nat.id by lia. lia.
  - intros Hge. rewrite E.
    assert (~ (byteLen (decimalValue ds) <= Z.to_nat w)%nat) by (rewrite Hfit; lia).
    now replace (Z.of_nat (byteLen (decimalValue ds)) <=? w) with false
      by (symmetry; apply Z.leb_gt; lia).
Qed.

End number_values.

(** ** Induction on trees *)

Lemma OJsonObject_nested_ind {K : Type} (P : OJsonObject K -> Prop) :
  (forall s, P (OJsonString s)) ->
  (forall l, Forall P l -> P (OJsonList l)) ->
  (forall m, Forall (fun kvp => P (snd kvp)) m -> P (OJsonMap m)) ->
  P OJsonOther ->
  forall obj, P obj.
Proof.
  intros Hstr Hlist Hmap Hother. fix IH 1. intros [s|l|m|].
  - apply Hstr.
  - apply Hlist. induction l as [|x xs IHl]; constructor; [apply IH | exact IHl].
  - apply Hmap. induction m as [|kvp xs IHm]; constructor; [apply IH | exact IHm].
  - apply Hother.
Qed.

(** A loop that ran inside a node and had its result appended is the
    same loop run on the outer accumulator. *)
Lemma concatLoop_nested {A : Type} (eval : A -> exec rets) (items : list A)
      (acc : bytes) :
  match concatLoop eval items [] with
  | Panics msg => Panics msg
  | Returns (_, Some err) => Returns ([], Some err)
  | Returns (value, None) => Returns (acc ++ value, None)
  end = concatLoop eval items acc.
Proof.
  rewrite (concatLoop_acc eval items acc).
  destruct (concatLoop eval items []) as [[v [e|]]|] eqn:E; try reflexivity.
  apply concatLoop_error_nil in E. now subst v.
Qed.

Section tree_rules.

Variable FileResolver : option (string -> rets).
Variable keccak256 : bytes -> rets.
Variable address : bytes -> rets.
Context {K : Type}.

#[local] Abbreviation IS := (InterpretString FileResolver keccak256 address).
#[local] Abbreviation IST := (@InterpretSubTree FileResolver keccak256 address K).
#[local] Abbreviation EL := (evalLeaf FileResolver keccak256 address).

Lemma concatLoop_flat_map {A : Type} (eval : A -> exec rets) (lv : A -> list leaf)
      (items : list A) :
  Forall (fun x => forall acc, concatLoop eval [x] acc = concatLoop EL (lv x) acc) items ->
  forall acc, concatLoop eval items acc = concatLoop EL (flat_map lv items) acc.
Proof.
  induction 1 as [|x xs Hx _ IH]; intros acc; [reflexivity|].
  change (x :: xs) with ([x] ++ xs). rewrite flat_map_app.
  rewrite !concatLoop_app_full, Hx.
  cbn [flat_map]. rewrite app_nil_r.
  destruct (concatLoop EL (lv x) acc) as [[b [e|]]|]; try reflexivity. apply IH.
Qed.

(** A node in a loop counts as its leaves in the loop. *)
Lemma concatLoop_leaves (obj : OJsonObject K) :
  forall acc, concatLoop IST [obj] acc = concatLoop EL (leaves obj) acc.
Proof.
  induction obj as [s|l Hl|m Hm|] using OJsonObject_nested_ind; intros acc.
  - reflexivity.
  - cbn [concatLoop InterpretSubTree leaves].
    rewrite <- (concatLoop_flat_map IST leaves l Hl acc).
    rewrite <- (concatLoop_nested IST l acc).
    now destruct (concatLoop IST l []) as [[v [e|]]|].
  - cbn [concatLoop InterpretSubTree leaves].
    rewrite <- (concatLoop_flat_map (fun kvp => IST (snd kvp))
                  (fun kvp => leaves (snd kvp)) m).
    + rewrite <- (concatLoop_nested (fun kvp => IST (snd kvp)) m acc).
      now destruct (concatLoop (fun kvp => IST (snd kvp)) m []) as [[v [e|]]|].
    + exact Hm.
  - reflexivity.
Qed.

(** ** Trees *)

(** X12: the evaluation of a list or map node depends only on its leaves
    in left-to-right order, not on how they are nested or keyed: it is
    the loop over the leaves. *)
Theorem InterpretSubTree_leaves (obj : OJsonObject K) :
  isContainer obj = true ->
  InterpretSubTree FileResolver keccak256 address obj
  = concatLoop (evalLeaf FileResolver keccak256 address) (leaves obj) [].
Proof.
  intros Hc. rewrite <- concatLoop_leaves.
  destruct obj as [s|l|m|]; try discriminate.
  - cbn [concatLoop InterpretSubTree].
    destruct (concatLoop IST l []) as [[v [e|]]|] eqn:E; try reflexivity.
    apply concatLoop_error_nil in E. now subst v.
  - cbn [concatLoop InterpretSubTree].
    destruct (concatLoop (fun kvp => IST (snd kvp)) m []) as [[v [e|]]|] eqn:E;
      try reflexivity.
    apply concatLoop_error_nil in E. now subst v.
Qed.

(** X13: a list or map node never returns bytes together with an
    error. *)
Theorem InterpretSubTree_error_no_bytes (obj : OJsonObject K) (bs : bytes) (err : error) :
  isContainer obj = true ->
  InterpretSubTree FileResolver keccak256 address obj = Returns (bs, Some err) ->
  bs = [].
Proof.
  intros Hc H. destruct obj as [s|l|m|]; try discriminate;
    simpl in H; now apply concatLoop_error_nil in H.
Qed.

(** X14: the list of two lists appended evaluates to the bytes of the
    first followed by the bytes of the second; an error or panic of the
    first comes back as it is, otherwise one of the second. *)
Theorem InterpretSubTree_list_app (l1 l2 : list (OJsonObject K)) :
  InterpretSubTree FileResolver keccak256 address (OJsonList (l1 ++ l2)) =
  match InterpretSubTree FileResolver keccak256 address (OJsonList l1) with
  | Returns (b1, None) =>
      match InterpretSubTree FileResolver keccak256 address (OJsonList l2) with
      | Returns (b2, None) => Returns (b1 ++ b2, None)
      | other => other
      end
  | other => other
  end.
Proof.
  cbn [InterpretSubTree]. rewrite concatLoop_app_full.
  destruct (concatLoop IST l1 []) as [[b1 [e|]]|]; try reflexivity.
  apply concatLoop_acc.
Qed.

(** X15: a list of two or more strings without "|", the first of which
    is not a file or hash reference, evaluates exactly like the single
    string that joins them with "|" (errors and panics included). *)
Theorem InterpretString_join_as_list (e : string) (es : list string) :
  es <> [] -> Forall (fun p => contains p "|" = false) (e :: es) ->
  HasPrefix e filePrefix = false -> HasPrefix e keccak256Prefix = false ->
  InterpretString FileResolver keccak256 address (Join (e :: es) "|")
  = InterpretSubTree FileResolver keccak256 address
      (OJsonList (map (@OJsonString K) (e :: es))).
Proof.
  intros Hne Hparts Hf Hk.
  destruct es as [|e' es']; [congruence|].
  rewrite InterpretString_unfold. unfold InterpretString_body.
  rewrite Split_Join by (discriminate || exact Hparts).
  change (Join (e :: e' :: es') "|") with (e ++ String "|" (Join (e' :: es') "|"))%string.
  unfold HasPrefix in *. rewrite !prefix_before_sep by reflexivity.
  rewrite Hf, Hk, length_append.
  replace (_ =? 0)%nat with false by (symmetry; apply Nat.eqb_neq; simpl; lia).
  cbn [InterpretSubTree]. rewrite <- concatLoop_map. reflexivity.
Qed.

End tree_rules.

Section hash_of_concatenation.

Variable FileResolver : option (string -> rets).
Variable keccak256 : bytes -> rets.
Variable address : bytes -> rets.

#[local] Abbreviation IS' := (InterpretString FileResolver keccak256 address).

(** X16: the hash reference takes the whole concatenation after it:
    "keccak256:" followed by e1|e2 is the hash of the bytes of e1
    followed by the bytes of e2 (for e1, e2 that evaluate, e1 not a file
    or hash reference, e2 not one that contains "|"). *)
Theorem InterpretString_keccak256_of_concatenation (e1 e2 : string) (b1 b2 : bytes) :
  InterpretString FileResolver keccak256 address e1 = Returns (b1, None) ->
  InterpretString FileResolver keccak256 address e2 = Returns (b2, None) ->
  HasPrefix e1 filePrefix = false -> HasPrefix e1 keccak256Prefix = false ->
  contains e2 "|" = false \/
  (HasPrefix e2 filePrefix = false /\ HasPrefix e2 keccak256Prefix = false) ->
  InterpretString FileResolver keccak256 address (keccak256Prefix ++ e1 ++ "|" ++ e2) =
  match keccak256 (b1 ++ b2) with
  | (_, Some err) => Returns ([], Some (fmt_Errorf_w "error computing keccak256: " err))
  | (hash, None) => Returns (hash, None)
  end.
Proof.
  intros H1 H2 Hf Hk Hshape.
  assert (Hcat : IS' (e1 ++ "|" ++ e2) = Returns (b1 ++ b2, None)).
  { rewrite InterpretString_unfold. unfold InterpretString_body.
    change ("|" ++ e2)%string with (String "|" e2).
    unfold HasPrefix in *. rewrite !prefix_before_sep by reflexivity.
    rewrite Hf, Hk, Split_join, length_append.
    replace (_ =? 0)%nat with false by (symmetry; apply Nat.eqb_neq; simpl; lia).
    cbv zeta.
    replace (1 <? _)%nat with true.
    2:{ symmetry. apply Nat.ltb_lt. rewrite length_app.
        pose proof (Split_not_nil e1 "|"). pose proof (Split_not_nil e2 "|").
        destruct (Split e1 "|"), (Split e2 "|"); simpl; try congruence; lia. }
    rewrite (concatLoop_app IS' _ _ [] b1).
    - rewrite concatLoop_acc.
      rewrite (InterpretString_parts _ _ _ e2 b2 H2 Hshape). reflexivity.
    - apply InterpretString_parts; [exact H1 | right; split; assumption]. }
  rewrite InterpretString_unfold. unfold InterpretString_body.
  change (HasPrefix (keccak256Prefix ++ e1 ++ "|" ++ e2) filePrefix) with false.
  rewrite HasPrefix_append, slice_from_append.
  cbv iota. rewrite Hcat. reflexivity.
Qed.

End hash_of_concatenation.

(** ** The computed form of [danglingSigned] *)

Lemma danglingSignedb_append (a s : string) :
  danglingSignedb s = true -> danglingSignedb (a ++ s) = true.
Proof.
  intros H. induction a as [|c a IH]; [exact H|].
  simpl. rewrite IH. apply orb_true_r.
Qed.

Lemma danglingSignedb_here (p post : string) :
  In p signedPrefixes ->
  ((post =? "")%string || HasPrefix post "|") = true ->
  danglingSignedb (p ++ post) = true.
Proof.
  intros Hp Hcond.
  destruct p as [|c p'].
  - exfalso. unfold signedPrefixes in Hp. simpl in Hp.
    repeat (destruct Hp as [Hp|Hp]; [discriminate|]). contradiction.
  - change (danglingSignedb (String c p' ++ post)) with
      (existsb (fun q =>
                  HasPrefix (String c p' ++ post) q &&
                  (let post' := slice_from (String c p' ++ post) (String.length q) in
                   (post' =? "")%string || HasPrefix post' "|"))
               signedPrefixes
       || danglingSignedb (p' ++ post)).
    apply orb_true_iff. left. apply existsb_exists.
    exists (String c p'). split; [exact Hp|].
    cbv zeta. now rewrite HasPrefix_append, slice_from_append, Hcond.
Qed.

Lemma danglingSignedb_complete (s : string) :
  danglingSigned s -> danglingSignedb s = true.
Proof.
  intros (pre & p & post & Hp & -> & Hpost).
  apply danglingSignedb_append, danglingSignedb_here; [exact Hp|].
  destruct Hpost as [-> | ->]; [reflexivity | apply orb_true_r].
Qed.

Section first_error.

Variable FileResolver : option (string -> rets).
Variable keccak256 : bytes -> rets.
Variable address : bytes -> rets.

#[local] Abbreviation IS := (InterpretString FileResolver keccak256 address).

(** X5: InterpretString does not panic on a string in which no signed
    fixed-width prefix ("i64:", "i32:", "i16:", "i8:") ends the string
    or stands right before a "|". *)
Theorem InterpretString_never_panics (s : string) :
  danglingSignedb s = false ->
  forall msg, InterpretString FileResolver keccak256 address s <> Panics msg.
Proof.
  intros H. apply InterpretString_no_panic.
  intros Hd. apply danglingSignedb_complete in Hd. congruence.
Qed.

(** The loop over the parts of a string that fails. *)
Lemma InterpretString_parts_error (e : string) (b : bytes) (err : error) :
  IS e = Returns (b, Some err) ->
  contains e "|" = false \/
  (HasPrefix e filePrefix = false /\ HasPrefix e keccak256Prefix = false) ->
  concatLoop IS (Split e "|") [] = Returns ([], Some err).
Proof.
  intros He Hshape.
  destruct (contains e "|") eqn:Hbar.
  - destruct Hshape as [|[Hf Hk]]; [discriminate|].
    rewrite InterpretString_unfold in He. unfold InterpretString_body in He.
    rewrite Hf, Hk in He.
    destruct e as [|c e]; [discriminate|]. simpl (String.length _ =? 0)%nat in He.
    cbv iota zeta in He.
    apply Split_with_sep in Hbar. apply Nat.ltb_lt in Hbar.
    rewrite Hbar in He.
    pose proof (concatLoop_error_nil _ _ _ _ _ He) as ->. exact He.
  - rewrite (Split_no_sep _ _ Hbar). simpl. now rewrite He.
Qed.

(** X17: a concatenation stops at the first part that fails.  For e1 that
    is not a file or hash reference: when e1 fails, e1|e2 returns the
    error of e1 and no bytes whatever e2 is; when e1 evaluates and e2
    fails, where e2 does not both start with "file:" or "keccak256:" and
    contain "|", e1|e2 returns the error of e2 and none of the bytes of
    e1. *)
Theorem InterpretString_concatenation_first_error (e1 e2 : string) :
  HasPrefix e1 filePrefix = false -> HasPrefix e1 keccak256Prefix = false ->
  (forall (b : bytes) (err : error),
      InterpretString FileResolver keccak256 address e1 = Returns (b, Some err) ->
      InterpretString FileResolver keccak256 address (e1 ++ "|" ++ e2)
      = Returns ([], Some err)) /\
  (forall (b1 b2 : bytes) (err : error),
      InterpretString FileResolver keccak256 address e1 = Returns (b1, None) ->
      InterpretString FileResolver keccak256 address e2 = Returns (b2, Some err) ->
      contains e2 "|" = false \/
      (HasPrefix e2 filePrefix = false /\ HasPrefix e2 keccak256Prefix = false) ->
      InterpretString FileResolver keccak256 address (e1 ++ "|" ++ e2)
      = Returns ([], Some err)).
Proof.
  intros Hf Hk.
  assert (E : IS (e1 ++ "|" ++ e2) = concatLoop IS (Split e1 "|" ++ Split e2 "|") []).
  { rewrite InterpretString_unfold. unfold InterpretString_body.
    change ("|" ++ e2)%string with (String "|" e2).
    unfold HasPrefix in *. rewrite !prefix_before_sep by reflexivity.
    rewrite Hf, Hk, Split_join, length_append.
    replace (_ =? 0)%nat with false by (symmetry; apply Nat.eqb_neq; simpl; lia).
    cbv zeta.
    replace (1 <? _)%nat with true; [reflexivity|].
    symmetry. apply Nat.ltb_lt. rewrite length_app.
    pose proof (Split_not_nil e1 "|"). pose proof (Split_not_nil e2 "|").
    destruct (Split e1 "|"), (Split e2 "|"); simpl; try congruence; lia. }
  split.
  - intros b err H1. rewrite E, concatLoop_app_full.
    rewrite (InterpretString_parts_error e1 b err H1); [reflexivity|].
    right; split; assumption.
  - intros b1 b2 err H1 H2 Hshape. rewrite E, concatLoop_app_full.
    rewrite (InterpretString_parts _ _ _ e1 b1 H1) by (right; split; assumption).
    rewrite concatLoop_acc.
    now rewrite (InterpretString_parts_error e2 b2 err H2 Hshape).
Qed.

End first_error.

(** ** Instances of the further properties *)

Lemma InterpretString_ascii_literal_witness :
  In "str:" strPrefixes /\
  contains "0x12" "|" = false /\
  InterpretString noResolver unavailable unavailable ("str:" ++ "0x12")
  = Returns (list_byte_of_string "0x12", None).
Proof.
  assert (Hin : In "str:" strPrefixes) by (simpl; tauto).
  split; [exact Hin|]. split; [reflexivity|].
  apply (InterpretString_ascii_literal noResolver unavailable unavailable "str:" "0x12" Hin).
  reflexivity.
Defined.

Lemma InterpretString_address_literal_witness :
  contains "owner" "|" = false /\
  InterpretString noResolver unavailable echo (addrPrefix ++ "owner")
  = Returns (list_byte_of_string "owner", None).
Proof.
  split; [reflexivity|].
  apply (InterpretString_address_literal noResolver unavailable echo "owner").
  reflexivity.
Defined.

Lemma InterpretString_signed_number_witness :
  allChars isDecimalDigit "129" = true /\
  InterpretString noResolver unavailable unavailable (String "-" "129")
  = Returns ([xff; x7f], None).
Proof.
  split; [reflexivity|].
  apply (proj1 (InterpretString_signed_number noResolver unavailable unavailable
                  "-"%char (or_introl eq_refl)) "129");
    [discriminate | reflexivity].
Defined.


Lemma InterpretString_never_panics_witness :
  danglingSignedb "i8:1|str:i8:x" = false /\
  forall msg,
    InterpretString noResolver unavailable unavailable "i8:1|str:i8:x" <> Panics msg.
Proof.
  split; [reflexivity|].
  apply (InterpretString_never_panics noResolver unavailable unavailable "i8:1|str:i8:x").
  reflexivity.
Defined.

Lemma InterpretString_bytes_with_error_witness :
  InterpretString noResolver unavailable unavailable "0x12zz"
  = Returns ([x12], Some (hex_InvalidByteError "z")) /\
  hex.DecodeString (padded (slice_from "0x12zz" 2))
  = ([x12], Some (hex_InvalidByteError "z")).
Proof.
  split; [reflexivity|].
  destruct (InterpretString_bytes_with_error noResolver unavailable unavailable
              "0x12zz" [x12] (hex_InvalidByteError "z") eq_refl ltac:(discriminate))
    as [[Ha _] | [_ Hd]]; [discriminate Ha | exact Hd].
Defined.

Lemma InterpretString_fixed_width_length_witness :
  In (i16Prefix, 2, true) fixedWidthPrefixes /\
  InterpretString noResolver unavailable unavailable (i16Prefix ++ "-1")
  = Returns ([xff; xff], None) /\
  Z.of_nat (List.length [xff; xff]) = 2.
Proof.
  assert (Hin : In (i16Prefix, 2, true) fixedWidthPrefixes) by (simpl; tauto).
  split; [exact Hin|]. split; [reflexivity|].
  apply (InterpretString_fixed_width_length noResolver unavailable unavailable
           i16Prefix 2 true "-1" [xff; xff] Hin); reflexivity.
Defined.

Lemma InterpretString_decimal_witness :
  stripSeparators "1,000_000" = "1000000" /\
  allChars isDecimalDigit "1000000" = true /\
  InterpretString noResolver unavailable unavailable "1,000_000"
  = Returns ([x0f; x42; x40], None).
Proof.
  split; [reflexivity|]. split; [reflexivity|].
  apply (proj1 (InterpretString_decimal noResolver unavailable unavailable
                  "1,000_000" "1000000" eq_refl ltac:(discriminate) eq_refl)).
Defined.

Lemma InterpretString_binary_witness :
  stripSeparators "1111_0000" = "11110000" /\
  allChars isBinaryDigit "11110000" = true /\
  InterpretString noResolver unavailable unavailable ("0b" ++ "1111_0000")
  = Returns ([xf0], None).
Proof.
  split; [reflexivity|]. split; [reflexivity|].
  apply (proj1 (InterpretString_binary noResolver unavailable unavailable
                  "0b" "1111_0000" "11110000" (or_introl eq_refl) eq_refl
                  ltac:(discriminate) eq_refl)).
Defined.

Lemma InterpretString_fixed_width_decimal_witness :
  In (u16Prefix, 2, false) fixedWidthPrefixes /\
  allChars isDecimalDigit "258" = true /\
  decimalValue "258" < 256 ^ 2 /\
  InterpretString noResolver unavailable unavailable (u16Prefix ++ "258")
  = Returns ([x01; x02], None).
Proof.
  assert (Hin : In (u16Prefix, 2, false) fixedWidthPrefixes) by (simpl; tauto).
  split; [exact Hin|]. split; [reflexivity|]. split; [reflexivity|].
  apply (proj1 (InterpretString_fixed_width_decimal noResolver unavailable unavailable
                  u16Prefix 2 false "258" Hin ltac:(discriminate) eq_refl)).
  reflexivity.
Defined.

Lemma InterpretSubTree_leaves_witness :
  leaves (OJsonList [OJsonMap [("k"%string, OJsonList [OJsonString "1"; OJsonString "2"])];
                     OJsonString "3"])
  = [LeafString "1"; LeafString "2"; LeafString "3"] /\
  InterpretSubTree noResolver unavailable unavailable
    (OJsonList [OJsonMap [("k"%string, OJsonList [OJsonString "1"; OJsonString "2"])];
                OJsonString "3"])
  = concatLoop (evalLeaf noResolver unavailable unavailable)
      [LeafString "1"; LeafString "2"; LeafString "3"] [].
Proof.
  split; [reflexivity|].
  apply (InterpretSubTree_leaves noResolver unavailable unavailable
           (OJsonList [OJsonMap [("k"%string, OJsonList [OJsonString "1"; OJsonString "2"])];
                       OJsonString "3"])).
  reflexivity.
Defined.

Lemma InterpretSubTree_error_no_bytes_witness :
  InterpretString noResolver unavailable unavailable "0x12zz"
  = Returns ([x12], Some (hex_InvalidByteError "z")) /\
  InterpretSubTree noResolver unavailable unavailable
    (OJsonList [OJsonString "1"; @OJsonString unit "0x12zz"])
  = Returns ([], Some (hex_InvalidByteError "z")) /\
  @nil byte = [].
Proof.
  split; [reflexivity|]. split; [reflexivity|].
  apply (InterpretSubTree_error_no_bytes noResolver unavailable unavailable
           (OJsonList [OJsonString "1"; @OJsonString unit "0x12zz"])
           [] (hex_InvalidByteError "z")); reflexivity.
Defined.

Lemma InterpretString_join_as_list_witness :
  Join ["str:a"; "1"; "0x0203"] "|" = "str:a|1|0x0203" /\
  InterpretString noResolver unavailable unavailable "str:a|1|0x0203"
  = InterpretSubTree noResolver unavailable unavailable
      (OJsonList [@OJsonString unit "str:a"; OJsonString "1"; OJsonString "0x0203"]).
Proof.
  split; [reflexivity|].
  apply (InterpretString_join_as_list noResolver unavailable unavailable (K := unit)
           "str:a" ["1"; "0x0203"]);
    [discriminate | repeat constructor | reflexivity | reflexivity].
Defined.

Lemma InterpretString_keccak256_of_concatenation_witness :
  InterpretString noResolver echo unavailable "str:a" = Returns ([x61], None) /\
  InterpretString noResolver echo unavailable "1" = Returns ([x01], None) /\
  InterpretString noResolver echo unavailable (keccak256Prefix ++ "str:a" ++ "|" ++ "1")
  = Returns ([x61; x01], None).
Proof.
  split; [reflexivity|]. split; [reflexivity|].
  apply (InterpretString_keccak256_of_concatenation noResolver echo unavailable
           "str:a" "1" [x61] [x01]);
    [reflexivity | reflexivity | reflexivity | reflexivity | left; reflexivity].
Defined.

Lemma InterpretString_concatenation_first_error_witness :
  InterpretString noResolver unavailable unavailable "zz"
  = Returns ([], Some (fmt_Errorf "could not parse base 10 value: zz")) /\
  InterpretString noResolver unavailable unavailable ("zz" ++ "|" ++ "i8:")
  = Returns ([], Some (fmt_Errorf "could not parse base 10 value: zz")) /\
  InterpretString noResolver unavailable unavailable "1" = Returns ([x01], None) /\
  InterpretString noResolver unavailable unavailable "file:a|1"
  = Returns ([], Some (errors_New "parser FileResolver not provided")) /\
  contains "file:a" "|" = false /\
  InterpretString noResolver unavailable unavailable ("1" ++ "|" ++ "file:a")
  = Returns ([], Some (errors_New "parser FileResolver not provided")).
Proof.
  split; [reflexivity|]. split.
  - apply (proj1 (InterpretString_concatenation_first_error noResolver unavailable unavailable
                    "zz" "i8:" eq_refl eq_refl) []).
    reflexivity.
  - split; [reflexivity|]. split; [reflexivity|]. split; [reflexivity|].
    apply (proj2 (InterpretString_concatenation_first_error noResolver unavailable unavailable
                    "1" "file:a" eq_refl eq_refl) [x01] []);
      [reflexivity | reflexivity | left; reflexivity].
Defined.
